(** * Pickup manager of the Zato server (zato/server/pickup.py)

    A shallow embedding of [PickupEvent] and [PickupManager]: parser
    resolution with its process-wide cache, pattern qualification, the
    per-event dispatcher, post-processing clean-up and the inotify loop.

    Python exceptions are values of [exn]; a computation of the manager is a
    state-and-error monad [M] over [PState], the mutable attributes of the
    manager plus a trace of the observable effects (imports, file reads,
    greenlets spawned, copies, removals, log lines). The operating system,
    the importer and the configured parsers are the record [Env]. *)

From Stdlib Require Import String Ascii List Bool.
From stdpp Require Import base gmap strings list.
Import ListNotations.

Open Scope string_scope.

(** ** Python values *)

(** A raised Python exception: an instance of a subclass of [Exception]
    (class name and message) or a [KeyboardInterrupt], which derives from
    [BaseException] only and is not caught by [except Exception]. *)
Inductive exn :=
| Exc (cls : string) (msg : string)
| KeyboardInterrupt.

Definition is_exception (e : exn) : bool :=
  match e with
  | Exc _ _ => true
  | KeyboardInterrupt => false
  end.

(** Python 2 [str] read in binary mode. *)
Definition bytes := list Byte.byte.

(** Values a parser may return; [PyObj i] is an object of identity [i]. *)
Inductive pyval :=
| PyNone
| PyBytes (b : bytes)
| PyObj (id : nat).

(** The [data] attribute of a [PickupEvent]: the module-level [_singleton]
    sentinel, or a value. *)
Inductive data_slot :=
| Singleton
| Val (v : pyval).

(** A resolved parser callable, identified by its object identity. *)
Definition callable := nat.

(** A compiled filename pattern (its source text); matching is done by the
    environment ([env_match], i.e. [pattern.match(name)]). *)
Definition pattern := string.

(** ** Configuration, events and the PickupEvent object *)

(** One section of the pickup configuration (a [Bunch]). *)
Record Config := {
  pickup_from : string;
  stanza : string;
  patterns : list pattern;
  read_on_pickup : bool;
  parse_on_pickup : bool;
  parse_with : string;
  is_service_hot_deploy : bool;
  delete_after_pick_up : bool;
  move_processed_to : option string;
  recipients : list string
}.

(** An inotify event: its watch descriptor and the file name. *)
Record event := {
  ev_wd : nat;
  ev_name : string
}.

Record PickupEvent := {
  pe_base_dir : option string;
  pe_file_name : option string;
  pe_full_path : option string;
  pe_stanza : option string;
  pe_ts_utc : option string;
  pe_raw_data : bytes;
  pe_data : data_slot;
  pe_has_raw_data : bool;
  pe_has_data : bool;
  pe_parse_error : option exn
}.

(** [PickupEvent.__init__] *)
Definition new_pickup_event : PickupEvent := {|
  pe_base_dir := None;
  pe_file_name := None;
  pe_full_path := None;
  pe_stanza := None;
  pe_ts_utc := None;
  pe_raw_data := [];
  pe_data := Singleton;
  pe_has_raw_data := false;
  pe_has_data := false;
  pe_parse_error := None
|}.

(** ** Observable effects *)

Inductive effect :=
| EImport (module_path callable_name : string)   (* getattr(import_module(m), n) *)
| EOpenRead (path : string)                        (* open(path, 'rb').read() *)
| ECallParser (c : callable)                       (* parser(raw_data) *)
| ESpawnHotDeploy (file_name full_path : string) (delete : bool)
| ESpawnCallbacks (pe : PickupEvent) (recipients : list string)
| ECopy (src dst : string)                         (* shutil.copy *)
| ERemove (path : string)                          (* os.remove *)
| EAddWatch (path : string)                        (* infx.add_watch *)
| EPoll                                            (* infx.get_events(fd, 1.0) *)
| ELogExc (e : exn)                                (* logger.warn(format_exc(e)) *)
| ELogMsg (msg : string).                          (* logger.warning(msg) *)

(** ** The environment: operating system, importer, parsers *)

Inductive res (A : Type) :=
| Ok (a : A)
| Err (e : exn).
Arguments Ok {A} a.
Arguments Err {A} e.

Record Env := {
  env_infx_available : bool;                 (* [infx is not None] *)
  env_infx_init : res nat;                   (* [infx.init()] *)
  env_path_exists : string -> bool;          (* [os.path.exists] *)
  env_add_watch : string -> res nat;         (* [infx.add_watch(fd, path, mask)] *)
  env_match : pattern -> string -> bool;     (* truthiness of [pattern.match(name)] *)
  env_import : string -> string -> res callable;  (* [getattr(import_module(m), n)] *)
  env_call : callable -> bytes -> res pyval; (* [parser(raw_data)] *)
  env_read : string -> res bytes;            (* [open(p, 'rb').read()] *)
  env_copy : string -> string -> res unit;   (* [shutil_copy(src, dst)] *)
  env_remove : string -> res unit            (* [os.remove(p)] *)
}.

(** Every error the environment can raise is an instance of [Exception]
    (no [KeyboardInterrupt] arrives while an event is handled). *)
Definition env_exceptions_only (env : Env) : Prop :=
  (forall m n e, env_import env m n = Err e -> is_exception e = true) /\
  (forall c b e, env_call env c b = Err e -> is_exception e = true) /\
  (forall p e, env_read env p = Err e -> is_exception e = true) /\
  (forall s d e, env_copy env s d = Err e -> is_exception e = true) /\
  (forall p e, env_remove env p = Err e -> is_exception e = true).

(** ** Manager state and the monad *)

Record PState := {
  parser_cache : gmap string callable;   (* [self._parser_cache] *)
  wd_to_path : gmap nat string;          (* [self.wd_to_path] *)
  keep_running : bool;                   (* [self.keep_running] *)
  trace : list effect
}.

Definition M (A : Type) := PState -> res A * PState.

Global Instance M_ret : MRet M := fun A a st => (Ok a, st).
Global Instance M_bind : MBind M := fun A B k m st =>
  match m st with
  | (Ok a, st') => k a st'
  | (Err e, st') => (Err e, st')
  end.

Definition raise {A} (e : exn) : M A := fun st => (Err e, st).

Definition lift {A} (r : res A) : M A := fun st => (r, st).

Definition record_effect (st : PState) (ef : effect) : PState := {|
  parser_cache := parser_cache st;
  wd_to_path := wd_to_path st;
  keep_running := keep_running st;
  trace := trace st ++ [ef]
|}.

Definition emit (ef : effect) : M unit := fun st => (Ok tt, record_effect st ef).

(** [try: m except Exception, e: h(e)] *)
Definition try_except_Exception {A} (m : M A) (h : exn -> M A) : M A := fun st =>
  match m st with
  | (Err e, st') => if is_exception e then h e st' else (Err e, st')
  | r => r
  end.

(** [try: m except KeyboardInterrupt: h] *)
Definition try_except_KeyboardInterrupt {A} (m : M A) (h : M A) : M A := fun st =>
  match m st with
  | (Err KeyboardInterrupt, st') => h st'
  | r => r
  end.

Definition set_keep_running (b : bool) : M unit := fun st => (Ok tt, {|
  parser_cache := parser_cache st;
  wd_to_path := wd_to_path st;
  keep_running := b;
  trace := trace st
|}).

(** ** Python string helpers *)

Definition is_py_space (c : ascii) : bool :=
  match c with
  | " "%char | "009"%char | "010"%char | "011"%char | "012"%char | "013"%char => true
  | _ => false
  end.

Fixpoint lstrip (s : string) : string :=
  match s with
  | EmptyString => EmptyString
  | String c s' => if is_py_space c then lstrip s' else s
  end.

Fixpoint rev_str (s : string) (acc : string) : string :=
  match s with
  | EmptyString => acc
  | String c s' => rev_str s' (String c acc)
  end.

(** [str.strip()] with no argument: ASCII whitespace at both ends. *)
Definition py_strip (s : string) : string :=
  rev_str (lstrip (rev_str (lstrip s) EmptyString)) EmptyString.

Fixpoint split_go (sep : ascii) (s : string) (cur : string) : list string :=
  match s with
  | EmptyString => [cur]
  | String c s' =>
      if Ascii.eqb c sep then cur :: split_go sep s' EmptyString
      else split_go sep s' (String.append cur (String c EmptyString))
  end.

(** [s.split(sep)] for a one-character separator. *)
Definition py_split (sep : ascii) (s : string) : list string := split_go sep s EmptyString.

(** [sep.join(parts)] *)
Definition py_join (sep : string) (parts : list string) : string := String.concat sep parts.

(** [os.path.join(a, b)] (posixpath). *)
Definition os_path_join (a b : string) : string :=
  match b with
  | String "/" _ => b
  | _ =>
      if String.eqb a "" then b
      else if String.eqb (String.substring (String.length a - 1) 1 a) "/"
           then String.append a b
           else String.append a (String.append "/" b)
  end.

(** Python truthiness of an optional string attribute. *)
Definition truthy_str (o : option string) : bool :=
  match o with
  | Some s => negb (String.eqb s "")
  | None => false
  end.

(** ** Updates of the [PickupEvent] object *)

(** [pe.base_dir], [pe.file_name], [pe.stanza], [pe.full_path] set in
    [run] once the event qualifies. *)
Definition pe_skeleton (base_dir file_name stanza_name full_path : string) : PickupEvent := {|
  pe_base_dir := Some base_dir;
  pe_file_name := Some file_name;
  pe_full_path := Some full_path;
  pe_stanza := Some stanza_name;
  pe_ts_utc := pe_ts_utc new_pickup_event;
  pe_raw_data := pe_raw_data new_pickup_event;
  pe_data := pe_data new_pickup_event;
  pe_has_raw_data := pe_has_raw_data new_pickup_event;
  pe_has_data := pe_has_data new_pickup_event;
  pe_parse_error := pe_parse_error new_pickup_event
|}.

(** [pe.raw_data = f.read(); pe.has_raw_data = True] *)
Definition pe_set_raw (pe : PickupEvent) (raw : bytes) : PickupEvent := {|
  pe_base_dir := pe_base_dir pe;
  pe_file_name := pe_file_name pe;
  pe_full_path := pe_full_path pe;
  pe_stanza := pe_stanza pe;
  pe_ts_utc := pe_ts_utc pe;
  pe_raw_data := raw;
  pe_data := pe_data pe;
  pe_has_raw_data := true;
  pe_has_data := pe_has_data pe;
  pe_parse_error := pe_parse_error pe
|}.

(** [pe.data = d] *)
Definition pe_set_data (pe : PickupEvent) (d : pyval) : PickupEvent := {|
  pe_base_dir := pe_base_dir pe;
  pe_file_name := pe_file_name pe;
  pe_full_path := pe_full_path pe;
  pe_stanza := pe_stanza pe;
  pe_ts_utc := pe_ts_utc pe;
  pe_raw_data := pe_raw_data pe;
  pe_data := Val d;
  pe_has_raw_data := pe_has_raw_data pe;
  pe_has_data := pe_has_data pe;
  pe_parse_error := pe_parse_error pe
|}.

(** [pe.has_data = True] *)
Definition pe_set_has_data (pe : PickupEvent) : PickupEvent := {|
  pe_base_dir := pe_base_dir pe;
  pe_file_name := pe_file_name pe;
  pe_full_path := pe_full_path pe;
  pe_stanza := pe_stanza pe;
  pe_ts_utc := pe_ts_utc pe;
  pe_raw_data := pe_raw_data pe;
  pe_data := pe_data pe;
  pe_has_raw_data := pe_has_raw_data pe;
  pe_has_data := true;
  pe_parse_error := pe_parse_error pe
|}.

(** [pe.parse_error = e] *)
Definition pe_set_parse_error (pe : PickupEvent) (e : exn) : PickupEvent := {|
  pe_base_dir := pe_base_dir pe;
  pe_file_name := pe_file_name pe;
  pe_full_path := pe_full_path pe;
  pe_stanza := pe_stanza pe;
  pe_ts_utc := pe_ts_utc pe;
  pe_raw_data := pe_raw_data pe;
  pe_data := pe_data pe;
  pe_has_raw_data := pe_has_raw_data pe;
  pe_has_data := pe_has_data pe;
  pe_parse_error := Some e
|}.

(** ** Access to the manager's dictionaries *)

Definition key_error : exn := Exc "KeyError" "".

(** [self.wd_to_path[wd]] *)
Definition lookup_wd (wd : nat) : M string := fun st =>
  match wd_to_path st !! wd with
  | Some p => (Ok p, st)
  | None => (Err key_error, st)
  end.

(** [self.wd_to_path[wd] = path] *)
Definition set_wd (wd : nat) (path : string) : M unit := fun st => (Ok tt, {|
  parser_cache := parser_cache st;
  wd_to_path := <[wd := path]> (wd_to_path st);
  keep_running := keep_running st;
  trace := trace st
|}).

(** [self._parser_cache[name] = parser] *)
Definition cache_parser (name : string) (p : callable) : M unit := fun st => (Ok tt, {|
  parser_cache := <[name := p]> (parser_cache st);
  wd_to_path := wd_to_path st;
  keep_running := keep_running st;
  trace := trace st
|}).

(** [d[k]] on a dictionary that is not part of the mutable state. *)
Definition dict_get {V} (d : gmap string V) (k : string) : M V :=
  match d !! k with
  | Some v => mret v
  | None => raise key_error
  end.

(** Unpacking [type, name = parts]. *)
Definition unpack2 (parts : list string) : M (string * string) :=
  match parts with
  | [a; b] => mret (a, b)
  | [] | [_] => raise (Exc "ValueError" "need more than 1 value to unpack")
  | _ => raise (Exc "ValueError" "too many values to unpack")
  end.

Definition not_implemented : exn := Exc "NotImplementedError" "Not implemented in current version".

(** ** The manager's methods *)

Section Manager.

Variable env : Env.

(** [self.callback_config]: the configuration keyed by incoming directory,
    built once in [__init__] and only read afterwards. *)
Variable callback_config : gmap string Config.

(** [PickupManager.get_py_parser] *)
Definition get_py_parser (name : string) : M callable :=
  let parts := py_split "." name in
  let module_path := py_join "." (removelast parts) in
  let callable_name := default "" (last parts) in
  emit (EImport module_path callable_name);;
  lift (env_import env module_path callable_name).

(** [PickupManager.get_service_parser] *)
Definition get_service_parser (name : string) : M callable :=
  raise not_implemented.

(** [PickupManager.get_parser] *)
Definition get_parser (parser_name : string) : M callable := fun st =>
  match parser_cache st !! parser_name with
  | Some p => (Ok p, st)
  | None =>
      ('(type, name) ← unpack2 (py_split ":" (py_strip parser_name));
       parser ← (if String.eqb type "py" then get_py_parser name else get_service_parser name);
       cache_parser parser_name parser;;
       mret parser) st
  end.

(** [PickupManager.should_pick_up]: [Some true] is [True]; falling off the
    end of the loop returns [None]. *)
Fixpoint should_pick_up (name : string) (pats : list pattern) : option bool :=
  match pats with
  | [] => None
  | pat :: pats' => if env_match env pat name then Some true else should_pick_up name pats'
  end.

(** [PickupManager.post_handle] *)
Definition post_handle (full_path : string) (config : Config) : M unit :=
  (if truthy_str (move_processed_to config) then
     let dst := default "" (move_processed_to config) in
     emit (ECopy full_path dst);;
     lift (env_copy env full_path dst)
   else mret tt);;
  (if delete_after_pick_up config then
     emit (ERemove full_path);;
     lift (env_remove env full_path)
   else mret tt).

(** Modelled from the spec: [spawn_greenlet] (zato.common.util, not part of
    this module) hands a callable to a new greenlet as a fire-and-forget
    unit of work; the loop records the unit and carries on. *)
Definition spawn (ef : effect) : M unit := emit ef.

(** Resolution of the parser and its call on the raw bytes:
    [self.get_parser(config.parse_with)(pe.raw_data)]. *)
Definition parse_data (parser_name : string) (raw : bytes) : M pyval :=
  p ← get_parser parser_name;
  emit (ECallParser p);;
  lift (env_call env p raw).

(** The [if config.read_on_pickup:] block of [run]. *)
Definition load_content (config : Config) (full_path : string) (pe : PickupEvent) : M PickupEvent :=
  if read_on_pickup config then
    emit (EOpenRead full_path);;
    raw ← lift (env_read env full_path);
    let pe := pe_set_raw pe raw in
    if parse_on_pickup config then
      try_except_Exception
        (d ← parse_data (parse_with config) raw;
         mret (pe_set_has_data (pe_set_data pe d)))
        (fun e => mret (pe_set_parse_error pe e))
    else mret (pe_set_data pe (PyBytes raw))
  else mret pe.

(** Body of the per-event [try:] block of [run]; [continue] returns. *)
Definition handle_event (ev : event) : M unit :=
  base_dir ← lookup_wd (ev_wd ev);
  config ← dict_get callback_config base_dir;
  if negb (default false (should_pick_up (ev_name ev) (patterns config))) then mret tt
  else
    let full_path := os_path_join base_dir (ev_name ev) in
    let pe := pe_skeleton base_dir (ev_name ev) (stanza config) full_path in
    if is_service_hot_deploy config then
      spawn (ESpawnHotDeploy (ev_name ev) full_path (delete_after_pick_up config))
    else
      pe ← load_content config full_path pe;
      spawn (ESpawnCallbacks pe (recipients config));;
      post_handle full_path config.

(** One iteration of [for event in events:] with its [except Exception]
    guard. *)
Definition process_event (ev : event) : M unit :=
  try_except_Exception (handle_event ev) (fun e => emit (ELogExc e)).

Fixpoint process_events (evs : list event) : M unit :=
  match evs with
  | [] => mret tt
  | ev :: evs' => process_event ev;; process_events evs'
  end.

(** What happens between two checks of [self.keep_running]: a call to
    [infx.get_events(fd, 1.0)] with its outcome, or an external [stop]
    clearing the flag. *)
Inductive tick :=
| Poll (r : res (list event))
| StopRequest.

(** [while self.keep_running: ...] observed over a finite schedule of
    ticks; the run is not observed past the end of the schedule. *)
Fixpoint run_loop (ticks : list tick) : M unit := fun st =>
  if keep_running st then
    match ticks with
    | [] => (Ok tt, st)
    | StopRequest :: ts => (set_keep_running false;; run_loop ts) st
    | Poll r :: ts =>
        (try_except_KeyboardInterrupt
           (emit EPoll;;
            events ← lift r;
            process_events events)
           (set_keep_running false);;
         run_loop ts) st
    end
  else (Ok tt, st).

(** [for path in self.callback_config: ...] *)
Fixpoint add_watches (paths : list string) : M unit :=
  match paths with
  | [] => mret tt
  | path :: paths' =>
      (if env_path_exists env path then mret tt
       else raise (Exc "Exception" (String.append "Path does not exist `" (String.append path "`"))));;
      emit (EAddWatch path);;
      wd ← lift (env_add_watch env path);
      set_wd wd path;;
      add_watches paths'
  end.

(** [PickupManager.run] *)
Definition run (ticks : list tick) : M unit :=
  if negb (env_infx_available env) then
    emit (ELogMsg "inotify not available, pickup disabled")
  else
    _fd ← lift (env_infx_init env);
    try_except_Exception
      (add_watches (map fst (map_to_list callback_config));;
       run_loop ticks)
      (fun e => emit (ELogExc e)).

End Manager.

(** ** A concrete environment used by the examples *)

Definition demo_error (cls : string) : exn := Exc cls "".

Definition demo_env : Env := {|
  env_infx_available := true;
  env_infx_init := Ok 3;
  env_path_exists := fun p => String.eqb p "/in";
  env_add_watch := fun p => if String.eqb p "/in" then Ok 1 else Ok 2;
  env_match := fun pat name => String.prefix pat name;
  env_import := fun m n =>
    if String.eqb m "parsers" && String.eqb n "xml" then Ok 7
    else Err (demo_error "ImportError");
  env_call := fun c raw =>
    match raw with
    | [] => Err (demo_error "ValueError")
    | _ => Ok (PyObj (100 + c))
    end;
  env_read := fun p =>
    if String.eqb p "/in/order.xml" then Ok [Byte.x3c; Byte.x61; Byte.x3e]
    else if String.eqb p "/in/empty.xml" then Ok []
    else Err (demo_error "IOError");
  env_copy := fun _ dst =>
    if String.eqb dst "/archive" then Err (demo_error "IOError") else Ok tt;
  env_remove := fun _ => Ok tt
|}.

Definition demo_cfg (read parse hot delete : bool) (move : option string) : Config := {|
  pickup_from := "/in";
  stanza := "orders";
  patterns := ["order"; "empty"; "gone"];
  read_on_pickup := read;
  parse_on_pickup := parse;
  parse_with := "py:parsers.xml";
  is_service_hot_deploy := hot;
  delete_after_pick_up := delete;
  move_processed_to := move;
  recipients := ["svc.a"; "svc.b"]
|}.

Definition demo_st : PState := {|
  parser_cache := ∅;
  wd_to_path := {[1 := "/in"]};
  keep_running := true;
  trace := []
|}.

Definition demo_ev (name : string) : event := {| ev_wd := 1; ev_name := name |}.

(** ** Reasoning about [M] *)

Lemma bind_run {A B} (m : M A) (k : A -> M B) (st : PState) :
  (m ≫= k) st = match m st with
                | (Ok a, st') => k a st'
                | (Err e, st') => (Err e, st')
                end.
Proof. reflexivity. Qed.

Lemma ret_run {A} (a : A) (st : PState) : (mret a : M A) st = (Ok a, st).
Proof. reflexivity. Qed.

Lemma record_effect_trace st ef : trace (record_effect st ef) = (trace st ++ [ef])%list.
Proof. reflexivity. Qed.

(** ** Parser resolution *)

(** The namespace of a parser identifier, when it has the form [ns:name]. *)
Definition parser_namespace (parser_name : string) : option string :=
  match py_split ":" (py_strip parser_name) with
  | [ty; _] => Some ty
  | _ => None
  end.

(** What one call of [get_parser] can do to the manager: only the cache
    changes, and only by inserting a successfully resolved [py:] parser at
    an identifier that was not cached. *)
Lemma get_parser_shape env pid st r st' :
  get_parser env pid st = (r, st') ->
  wd_to_path st' = wd_to_path st /\ keep_running st' = keep_running st /\
  (forall e, r = Err e -> parser_cache st' = parser_cache st) /\
  (parser_cache st' = parser_cache st \/
   exists p, parser_cache st !! pid = None /\ r = Ok p /\
             parser_namespace pid = Some "py" /\
             parser_cache st' = <[pid := p]> (parser_cache st)).
Proof.
  unfold get_parser, parser_namespace.
  destruct (parser_cache st !! pid) as [p|] eqn:Hc.
  - intros H; inversion H; subst; auto.
  - rewrite bind_run.
    destruct (py_split ":" (py_strip pid)) as [|ty [|nm [|x rest]]] eqn:Hs;
      cbn; try (intros H; inversion H; subst; auto; fail).
    destruct (String.eqb ty "py") eqn:Hty; cbn.
    + unfold get_py_parser; rewrite !bind_run; cbn.
      match goal with |- context [env_import ?en ?a ?b] => destruct (env_import en a b) as [p|e] eqn:Hi end;
        cbn; intros H; inversion H; subst; cbn; repeat split; auto.
      * intros e He; discriminate.
      * right. exists p. apply String.eqb_eq in Hty. subst. auto.
    + intros H; inversion H; subst; auto.
Qed.

Lemma get_parser_cached env pid st p :
  parser_cache st !! pid = Some p -> get_parser env pid st = (Ok p, st).
Proof. intros H. unfold get_parser. rewrite H. reflexivity. Qed.

Lemma get_parser_ok_cache env pid st p st' :
  get_parser env pid st = (Ok p, st') -> parser_cache st' !! pid = Some p.
Proof.
  intros H.
  destruct (parser_cache st !! pid) as [q|] eqn:Hc.
  - rewrite (get_parser_cached env pid st q Hc) in H. inversion H; subst; auto.
  - destruct (get_parser_shape env pid st (Ok p) st' H) as (_ & _ & _ & [Heq | (q & _ & Hq & _ & Hins)]).
    + exfalso. revert H. unfold get_parser. rewrite Hc, bind_run.
      destruct (py_split ":" (py_strip pid)) as [|ty [|nm [|x rest]]]; cbn;
        try (intros H; inversion H; fail).
      destruct (String.eqb ty "py"); cbn; [|intros H; inversion H].
      unfold get_py_parser; rewrite !bind_run; cbn.
      match goal with |- context [env_import ?en ?a ?b] => destruct (env_import en a b) end;
        cbn; intros H; inversion H; subst; cbn in Heq.
      rewrite <- Heq in Hc. rewrite lookup_insert_eq in Hc. discriminate.
    + inversion Hq; subst. rewrite Hins. apply lookup_insert_eq.
Qed.

Lemma get_parser_cache_grows env pid st r st' :
  get_parser env pid st = (r, st') -> parser_cache st ⊆ parser_cache st'.
Proof.
  intros H.
  destruct (get_parser_shape env pid st r st' H) as (_ & _ & _ & [Heq | (p & Hn & _ & _ & Hins)]).
  - rewrite Heq. reflexivity.
  - rewrite Hins. apply insert_subseteq. exact Hn.
Qed.

(** ** State invariants of the per-event handler *)

Definition preserves (Q : PState -> Prop) {A} (m : M A) : Prop :=
  forall st r st', Q st -> m st = (r, st') -> Q st'.

Create HintDb pres.

Section Invariant.

Variable env : Env.
Variable callback_config : gmap string Config.
Variable Q : PState -> Prop.

(** Recording an effect keeps [Q]; the only other state change made while
    handling an event is parser resolution, which keeps [Q] as well. *)
Hypothesis Q_effect : forall st ef, Q st -> Q (record_effect st ef).
Hypothesis Q_parser : forall pid, preserves Q (get_parser env pid).

Lemma pres_bind {A B} (m : M A) (k : A -> M B) :
  preserves Q m -> (forall a, preserves Q (k a)) -> preserves Q (m ≫= k).
Proof.
  intros Hm Hk st r st' HQ. rewrite bind_run.
  destruct (m st) as [[a|e] st1] eqn:E.
  - apply Hk. eapply Hm; eauto.
  - intros H; inversion H; subst. eapply Hm; eauto.
Qed.

Lemma pres_ret {A} (a : A) : preserves Q (mret a).
Proof. intros st r st' HQ H. inversion H; subst; auto. Qed.

Lemma pres_raise {A} e : preserves Q (raise (A:=A) e).
Proof. intros st r st' HQ H. inversion H; subst; auto. Qed.

Lemma pres_lift {A} (x : res A) : preserves Q (lift x).
Proof. intros st r st' HQ H. inversion H; subst; auto. Qed.

Lemma pres_emit ef : preserves Q (emit ef).
Proof. intros st r st' HQ H. inversion H; subst; auto. Qed.

Lemma pres_try {A} (m : M A) h :
  preserves Q m -> (forall e, preserves Q (h e)) -> preserves Q (try_except_Exception m h).
Proof.
  intros Hm Hh st r st' HQ. unfold try_except_Exception.
  destruct (m st) as [[a|e] st1] eqn:E.
  - intros H; inversion H; subst. eapply Hm; eauto.
  - destruct (is_exception e).
    + apply Hh. eapply Hm; eauto.
    + intros H; inversion H; subst. eapply Hm; eauto.
Qed.

Lemma pres_lookup_wd wd : preserves Q (lookup_wd wd).
Proof.
  intros st r st' HQ. unfold lookup_wd.
  destruct (wd_to_path st !! wd); intros H; inversion H; subst; auto.
Qed.

Lemma pres_dict_get {V} (d : gmap string V) k : preserves Q (dict_get d k).
Proof. unfold dict_get. destruct (d !! k); [apply pres_ret | apply pres_raise]. Qed.

Lemma pres_get_parser pid : preserves Q (get_parser env pid).
Proof. apply Q_parser. Qed.

Hint Resolve pres_bind pres_ret pres_raise pres_lift pres_emit pres_try
  pres_lookup_wd pres_dict_get pres_get_parser : pres.

Ltac pres_auto :=
  repeat (intros; first
    [ apply pres_bind
    | apply pres_try
    | match goal with
      | |- preserves _ (if ?b then _ else _) => destruct b
      | |- preserves _ (match ?x with _ => _ end) => destruct x
      end
    | solve [eauto with pres] ]).

Lemma pres_parse_data pid raw : preserves Q (parse_data env pid raw).
Proof. unfold parse_data. pres_auto. Qed.

Lemma pres_load_content config fp pe : preserves Q (load_content env config fp pe).
Proof. unfold load_content, spawn. pres_auto; apply pres_parse_data. Qed.

Lemma pres_post_handle fp config : preserves Q (post_handle env fp config).
Proof. unfold post_handle. pres_auto. Qed.

Lemma pres_handle_event ev : preserves Q (handle_event env callback_config ev).
Proof. unfold handle_event, spawn. pres_auto; auto using pres_load_content, pres_post_handle. Qed.

Lemma pres_process_event ev : preserves Q (process_event env callback_config ev).
Proof. unfold process_event. apply pres_try; [apply pres_handle_event | intros; apply pres_emit]. Qed.

Lemma pres_process_events evs : preserves Q (process_events env callback_config evs).
Proof.
  induction evs as [|ev evs IH]; cbn; [apply pres_ret|].
  apply pres_bind; [apply pres_process_event | intros; exact IH].
Qed.

End Invariant.

Lemma process_events_cache_grows env cbc evs st :
  parser_cache st ⊆ parser_cache (snd (process_events env cbc evs st)).
Proof.
  set (Q := fun s => parser_cache st ⊆ parser_cache s).
  assert (HQ : preserves Q (process_events env cbc evs)).
  { apply pres_process_events.
    - intros s ef H. exact H.
    - intros pid s r s' H Hs. unfold Q in *. etransitivity; [exact H|].
      eapply get_parser_cache_grows; eauto. }
  destruct (process_events env cbc evs st) as [r st'] eqn:E.
  apply (HQ st r st'); [unfold Q; reflexivity | exact E].
Qed.

(** Every cached identifier is [py:]-namespaced. *)
Definition cache_py (st : PState) : Prop :=
  forall k p, parser_cache st !! k = Some p -> parser_namespace k = Some "py".

Lemma process_events_cache_py env cbc evs st :
  cache_py st -> cache_py (snd (process_events env cbc evs st)).
Proof.
  intros H0.
  assert (HQ : preserves cache_py (process_events env cbc evs)).
  { apply pres_process_events.
    - intros s ef H. exact H.
    - intros pid s r s' H Hs k p Hk.
      destruct (get_parser_shape env pid s r s' Hs) as (_ & _ & _ & [Heq | (q & _ & _ & Hns & Hins)]).
      + rewrite Heq in Hk. eapply H; eauto.
      + rewrite Hins in Hk. destruct (decide (k = pid)) as [->|Hne].
        * exact Hns.
        * rewrite lookup_insert_ne in Hk by congruence. eapply H; eauto. }
  destruct (process_events env cbc evs st) as [r st'] eqn:E.
  apply (HQ st r st'); [exact H0 | exact E].
Qed.

(** ** Demo configurations *)

Definition demo_cfgs_parse : gmap string Config := {["/in" := demo_cfg true true false true None]}.
Definition demo_cfgs_raw : gmap string Config := {["/in" := demo_cfg true false false false None]}.
Definition demo_cfgs_archive : gmap string Config := {["/in" := demo_cfg false false false true (Some "/archive")]}.
Definition demo_cfgs_hot : gmap string Config := {["/in" := demo_cfg true true true true None]}.
Definition demo_cfgs_missing : gmap string Config := {["/missing" := demo_cfg true true false true None]}.

(** * Claims *)

(** ** C7: pattern qualification *)

(** C7 (as stated, refuted): for the empty pattern set the check returns
    [None], not [False]: falling off the end of the [for] loop of
    [should_pick_up] returns [None]. *)
Lemma should_pick_up_empty_is_None :
  should_pick_up demo_env "report.csv" [] = None /\
  should_pick_up demo_env "report.csv" [] <> Some false.
Proof. split; [reflexivity | discriminate]. Qed.

(** C7 (amended): [should_pick_up] returns [True] iff some pattern matches
    the filename and [None] (falsy) iff none does, so it never returns
    [False]; for the empty pattern set it returns [None]; and the result
    depends only on the patterns up to the first one that matches. *)
Theorem should_pick_up_spec (env : Env) (name : string) (pats : list pattern) :
  (should_pick_up env name pats = Some true <-> Exists (fun p => env_match env p name = true) pats) /\
  (should_pick_up env name pats = None <-> Forall (fun p => env_match env p name = false) pats) /\
  should_pick_up env name pats <> Some false /\
  should_pick_up env name [] = None /\
  (forall pre p post, env_match env p name = true ->
     should_pick_up env name (pre ++ p :: post) = should_pick_up env name (pre ++ [p])).
Proof.
  assert (Hval : forall l, should_pick_up env name l = Some true \/ should_pick_up env name l = None).
  { induction l as [|q l IH]; cbn; [auto|]. destruct (env_match env q name); auto. }
  split; [|split; [|split; [|split]]].
  - induction pats as [|q pats IH]; cbn.
    + split; [discriminate | intros H; inversion H].
    + destruct (env_match env q name) eqn:Hq.
      * split; [intros _; now constructor | auto].
      * rewrite IH. split; [intros H; now apply Exists_cons_tl|].
        intros H. inversion H; subst; [congruence | assumption].
  - induction pats as [|q pats IH]; cbn.
    + split; auto.
    + destruct (env_match env q name) eqn:Hq.
      * split; [discriminate|]. intros H. inversion H; congruence.
      * rewrite IH. split; [intros H; now constructor | intros H; now inversion H].
  - destruct (Hval pats) as [H|H]; rewrite H; discriminate.
  - reflexivity.
  - intros pre p post Hp. induction pre as [|q pre IH]; cbn.
    + rewrite Hp. reflexivity.
    + destruct (env_match env q name); [reflexivity | exact IH].
Qed.

(** ** C8: parser cache hits *)

(** C8: once [get_parser] resolved an identifier to a callable, every later
    resolution of it, after any number of further events handled (each of
    which may resolve other parsers), returns that same callable from the
    cache and leaves the manager untouched (no import, no cache write). *)
Theorem get_parser_cache_hit env cbc pid c st st' :
  get_parser env pid st = (Ok c, st') ->
  forall evs, let st'' := snd (process_events env cbc evs st') in
  parser_cache st'' !! pid = Some c /\ get_parser env pid st'' = (Ok c, st'').
Proof.
  intros H evs st''.
  assert (Hc : parser_cache st'' !! pid = Some c).
  { eapply lookup_weaken; [eapply get_parser_ok_cache; exact H|].
    apply process_events_cache_grows. }
  split; [exact Hc | apply get_parser_cached; exact Hc].
Qed.

Lemma get_parser_cache_hit_witness :
  let st1 := snd (get_parser demo_env "py:parsers.xml" demo_st) in
  let st2 := snd (process_events demo_env demo_cfgs_parse [demo_ev "order.xml"; demo_ev "empty.xml"] st1) in
  parser_cache st2 !! "py:parsers.xml" = Some 7 /\ get_parser demo_env "py:parsers.xml" st2 = (Ok 7, st2).
Proof.
  intros st1 st2.
  apply (get_parser_cache_hit demo_env demo_cfgs_parse "py:parsers.xml" 7 demo_st st1).
  vm_compute. reflexivity.
Defined.

(** ** C10: failed resolutions are not cached *)

(** C10: a resolution that raises leaves the cache as it was; and, starting
    from the empty cache of [__init__], after any events have been handled,
    resolving an identifier [ns:name] with [ns <> "py"] raises
    [NotImplementedError] again, without touching the manager. *)
Theorem get_parser_failure_not_cached env cbc :
  (forall pid st e st', get_parser env pid st = (Err e, st') -> parser_cache st' = parser_cache st) /\
  (forall pid ty st evs, parser_namespace pid = Some ty -> ty <> "py" -> parser_cache st = ∅ ->
     let st' := snd (process_events env cbc evs st) in
     get_parser env pid st' = (Err not_implemented, st')).
Proof.
  split.
  - intros pid st e st' H.
    destruct (get_parser_shape env pid st (Err e) st' H) as (_ & _ & He & _).
    exact (He e eq_refl).
  - intros pid ty st evs Hns Hty H0 st'.
    assert (Hpy : cache_py st').
    { apply process_events_cache_py. intros k p Hk. rewrite H0 in Hk. discriminate. }
    assert (Hnone : parser_cache st' !! pid = None).
    { destruct (parser_cache st' !! pid) as [p|] eqn:E; [|reflexivity].
      apply Hpy in E. congruence. }
    unfold get_parser. rewrite Hnone, bind_run.
    unfold parser_namespace in Hns.
    destruct (py_split ":" (py_strip pid)) as [|a [|nm [|x rest]]]; try discriminate.
    inversion Hns; subst. cbn.
    destruct (String.eqb_spec ty "py"); [contradiction|]. reflexivity.
Qed.

Lemma get_parser_failure_not_cached_witness :
  parser_cache (snd (get_parser demo_env "py:nomod.parse" demo_st)) = parser_cache demo_st /\
  (let st' := snd (process_events demo_env demo_cfgs_parse [demo_ev "order.xml"] demo_st) in
   get_parser demo_env "svc:parsers.xml" st' = (Err not_implemented, st')).
Proof.
  split.
  - apply (proj1 (get_parser_failure_not_cached demo_env demo_cfgs_parse)
             "py:nomod.parse" demo_st (demo_error "ImportError")).
    vm_compute. reflexivity.
  - intros st'.
    apply (proj2 (get_parser_failure_not_cached demo_env demo_cfgs_parse) "svc:parsers.xml" "svc").
    + reflexivity.
    + discriminate.
    + reflexivity.
Defined.

Lemma should_pick_up_spec_witness :
  should_pick_up demo_env "order.xml" (["x"] ++ "order" :: ["zzz"]) =
  should_pick_up demo_env "order.xml" (["x"] ++ ["order"]).
Proof.
  apply (proj2 (proj2 (proj2 (proj2 (should_pick_up_spec demo_env "order.xml" []))))).
  reflexivity.
Defined.

(** ** The dispatcher on a qualifying event *)

Lemma handle_event_qualifying env cbc ev st dir cfg :
  wd_to_path st !! ev_wd ev = Some dir ->
  cbc !! dir = Some cfg ->
  should_pick_up env (ev_name ev) (patterns cfg) = Some true ->
  handle_event env cbc ev st =
    (let full_path := os_path_join dir (ev_name ev) in
     let pe := pe_skeleton dir (ev_name ev) (stanza cfg) full_path in
     if is_service_hot_deploy cfg then
       spawn (ESpawnHotDeploy (ev_name ev) full_path (delete_after_pick_up cfg)) st
     else
       (pe ← load_content env cfg full_path pe;
        spawn (ESpawnCallbacks pe (recipients cfg));;
        post_handle env full_path cfg) st).
Proof.
  intros Hwd Hcfg Hpick.
  unfold handle_event. rewrite bind_run. unfold lookup_wd. rewrite Hwd.
  rewrite bind_run. unfold dict_get. rewrite Hcfg. rewrite ret_run.
  rewrite Hpick. cbn [negb default]. destruct (is_service_hot_deploy cfg); reflexivity.
Qed.

Lemma post_handle_appends env fp cfg st r st' :
  post_handle env fp cfg st = (r, st') -> exists rest, trace st' = (trace st ++ rest)%list.
Proof.
  unfold post_handle. rewrite !bind_run.
  destruct (truthy_str (move_processed_to cfg)); rewrite ?bind_run; cbn.
  - destruct (env_copy env _ _); cbn.
    + destruct (delete_after_pick_up cfg); cbn.
      * intros H; inversion H; subst; cbn. eexists. rewrite <- app_assoc. reflexivity.
      * intros H; inversion H; subst; cbn. eexists. reflexivity.
    + intros H; inversion H; subst; cbn. eexists. reflexivity.
  - destruct (delete_after_pick_up cfg); cbn.
    + intros H; inversion H; subst; cbn. eexists. reflexivity.
    + intros H; inversion H; subst; cbn. exists []. rewrite app_nil_r. reflexivity.
Qed.

(** ** C6: hot deployment *)

(** C6: a qualifying event whose configuration has [is_service_hot_deploy]
    adds exactly one effect, the hot-deploy greenlet for the event's file
    name and full path: no read, parse, callback or clean-up; the per-event
    guard has nothing to catch. *)
Theorem hot_deploy_dispatch env cbc ev st dir cfg :
  wd_to_path st !! ev_wd ev = Some dir ->
  cbc !! dir = Some cfg ->
  should_pick_up env (ev_name ev) (patterns cfg) = Some true ->
  is_service_hot_deploy cfg = true ->
  let st' := record_effect st (ESpawnHotDeploy (ev_name ev) (os_path_join dir (ev_name ev))
                                                (delete_after_pick_up cfg)) in
  handle_event env cbc ev st = (Ok tt, st') /\ process_event env cbc ev st = (Ok tt, st').
Proof.
  intros Hwd Hcfg Hpick Hhot st'.
  assert (H : handle_event env cbc ev st = (Ok tt, st')).
  { rewrite (handle_event_qualifying env cbc ev st dir cfg Hwd Hcfg Hpick). cbn.
    rewrite Hhot. reflexivity. }
  split; [exact H|]. unfold process_event, try_except_Exception. rewrite H. reflexivity.
Qed.

Lemma hot_deploy_dispatch_witness :
  let st' := record_effect demo_st (ESpawnHotDeploy "order.xml" "/in/order.xml" true) in
  handle_event demo_env demo_cfgs_hot (demo_ev "order.xml") demo_st = (Ok tt, st') /\
  process_event demo_env demo_cfgs_hot (demo_ev "order.xml") demo_st = (Ok tt, st').
Proof.
  apply (hot_deploy_dispatch demo_env demo_cfgs_hot (demo_ev "order.xml") demo_st "/in"
           (demo_cfg true true true true None)); reflexivity.
Defined.

(** ** C1: read without parsing *)

Definition demo_raw_trace : list effect :=
  trace (snd (handle_event demo_env demo_cfgs_raw (demo_ev "order.xml") demo_st)).

(** C1 (as stated, refuted): with [read_on_pickup] and without
    [parse_on_pickup], the event handed to the callbacks has its data set
    to the raw bytes but [has_data] still [False]. *)
Lemma pass_through_has_data_false :
  exists pe, In (ESpawnCallbacks pe ["svc.a"; "svc.b"]) demo_raw_trace /\
             pe_data pe = Val (PyBytes [Byte.x3c; Byte.x61; Byte.x3e]) /\
             pe_has_data pe = false.
Proof.
  vm_compute. eexists. split; [right; left; reflexivity | split; reflexivity].
Qed.

(** C1 (amended): with [read_on_pickup] and without [parse_on_pickup], once
    the file is read the event handed to the recipients carries the raw
    bytes as its data, [has_raw_data] is [True], while [has_data] keeps its
    initial [False] and no parse error is set. *)
Theorem pass_through_data env cbc ev st dir cfg raw :
  wd_to_path st !! ev_wd ev = Some dir ->
  cbc !! dir = Some cfg ->
  should_pick_up env (ev_name ev) (patterns cfg) = Some true ->
  is_service_hot_deploy cfg = false ->
  read_on_pickup cfg = true ->
  parse_on_pickup cfg = false ->
  env_read env (os_path_join dir (ev_name ev)) = Ok raw ->
  exists pe rest,
    trace (snd (handle_event env cbc ev st)) =
      (trace st ++ EOpenRead (os_path_join dir (ev_name ev)) :: ESpawnCallbacks pe (recipients cfg) :: rest)%list /\
    pe_raw_data pe = raw /\ pe_has_raw_data pe = true /\
    pe_data pe = Val (PyBytes raw) /\ pe_has_data pe = false /\ pe_parse_error pe = None.
Proof.
  intros Hwd Hcfg Hpick Hhot Hread Hparse Hraw.
  rewrite (handle_event_qualifying env cbc ev st dir cfg Hwd Hcfg Hpick). cbn zeta.
  rewrite Hhot. unfold load_content. rewrite Hread, Hparse.
  cbv [mbind M_bind mret M_ret lift emit spawn]. rewrite Hraw. cbn beta iota.
  match goal with |- context [post_handle ?a ?b ?c ?d] =>
    destruct (post_handle a b c d) as [r st'] eqn:Hp end.
  destruct (post_handle_appends _ _ _ _ _ _ Hp) as [rest Hrest].
  cbn. rewrite Hrest. cbn.
  eexists _, rest. split.
  - rewrite <- !app_assoc. reflexivity.
  - repeat split.
Qed.

Lemma pass_through_data_witness :
  exists pe rest,
    demo_raw_trace = ([] ++ EOpenRead "/in/order.xml" :: ESpawnCallbacks pe ["svc.a"; "svc.b"] :: rest)%list /\
    pe_raw_data pe = [Byte.x3c; Byte.x61; Byte.x3e] /\ pe_has_raw_data pe = true /\
    pe_data pe = Val (PyBytes [Byte.x3c; Byte.x61; Byte.x3e]) /\ pe_has_data pe = false /\
    pe_parse_error pe = None.
Proof.
  apply (pass_through_data demo_env demo_cfgs_raw (demo_ev "order.xml") demo_st "/in"
           (demo_cfg true false false false None)); reflexivity.
Defined.

(** ** C3: a failing read *)

Definition demo_gone_run : res unit * PState :=
  process_event demo_env demo_cfgs_raw (demo_ev "gone.xml") demo_st.

(** C3 (as stated, refuted): when reading the file raises, the occurrence
    does not reach the recipients: no callback greenlet is spawned. *)
Lemma read_failure_no_callbacks :
  ~ exists pe rs, In (ESpawnCallbacks pe rs) (trace (snd demo_gone_run)).
Proof.
  vm_compute. intros (pe & rs & [H | [H | []]]); discriminate.
Qed.

(** C3 (amended): with [read_on_pickup], a read that raises an [Exception]
    ends the handling of that occurrence: the error propagates out of the
    dispatcher before any callback or clean-up, the per-event guard logs
    it, and the loop goes on (the event's result is [Ok]). *)
Theorem read_failure_aborts_event env cbc ev st dir cfg e :
  wd_to_path st !! ev_wd ev = Some dir ->
  cbc !! dir = Some cfg ->
  should_pick_up env (ev_name ev) (patterns cfg) = Some true ->
  is_service_hot_deploy cfg = false ->
  read_on_pickup cfg = true ->
  env_read env (os_path_join dir (ev_name ev)) = Err e ->
  is_exception e = true ->
  let st1 := record_effect st (EOpenRead (os_path_join dir (ev_name ev))) in
  handle_event env cbc ev st = (Err e, st1) /\
  process_event env cbc ev st = (Ok tt, record_effect st1 (ELogExc e)).
Proof.
  intros Hwd Hcfg Hpick Hhot Hread Hraw Hexc st1.
  assert (H : handle_event env cbc ev st = (Err e, st1)).
  { rewrite (handle_event_qualifying env cbc ev st dir cfg Hwd Hcfg Hpick). cbn zeta.
    rewrite Hhot. unfold load_content. rewrite Hread.
    cbv [mbind M_bind mret M_ret lift emit spawn]. rewrite Hraw. reflexivity. }
  split; [exact H|]. unfold process_event, try_except_Exception. rewrite H, Hexc. reflexivity.
Qed.

Lemma read_failure_aborts_event_witness :
  let st1 := record_effect demo_st (EOpenRead "/in/gone.xml") in
  handle_event demo_env demo_cfgs_raw (demo_ev "gone.xml") demo_st = (Err (demo_error "IOError"), st1) /\
  process_event demo_env demo_cfgs_raw (demo_ev "gone.xml") demo_st =
    (Ok tt, record_effect st1 (ELogExc (demo_error "IOError"))).
Proof.
  apply (read_failure_aborts_event demo_env demo_cfgs_raw (demo_ev "gone.xml") demo_st "/in"
           (demo_cfg true false false false None)); reflexivity.
Defined.

(** ** C4: a failing parse *)

(** C4: with [read_on_pickup] and [parse_on_pickup], when resolving the
    parser or calling it raises an [Exception] [e], the event handed to the
    recipients has [has_data] [False] and [parse_error] [e], and the
    callback greenlet is still spawned, right after the failed parse. *)
Theorem parse_failure_recorded env cbc ev st dir cfg raw e st1 :
  wd_to_path st !! ev_wd ev = Some dir ->
  cbc !! dir = Some cfg ->
  should_pick_up env (ev_name ev) (patterns cfg) = Some true ->
  is_service_hot_deploy cfg = false ->
  read_on_pickup cfg = true ->
  parse_on_pickup cfg = true ->
  env_read env (os_path_join dir (ev_name ev)) = Ok raw ->
  parse_data env (parse_with cfg) raw (record_effect st (EOpenRead (os_path_join dir (ev_name ev))))
    = (Err e, st1) ->
  is_exception e = true ->
  exists pe rest,
    trace (snd (handle_event env cbc ev st)) =
      (trace st1 ++ ESpawnCallbacks pe (recipients cfg) :: rest)%list /\
    pe_has_raw_data pe = true /\ pe_raw_data pe = raw /\
    pe_has_data pe = false /\ pe_parse_error pe = Some e.
Proof.
  intros Hwd Hcfg Hpick Hhot Hread Hparse Hraw Hfail Hexc.
  rewrite (handle_event_qualifying env cbc ev st dir cfg Hwd Hcfg Hpick). cbn zeta.
  rewrite Hhot. unfold load_content. rewrite Hread, Hparse.
  cbv [mbind M_bind mret M_ret lift emit spawn try_except_Exception]. rewrite Hraw. cbn beta iota.
  rewrite Hfail, Hexc. cbn beta iota.
  match goal with |- context [post_handle ?a ?b ?c ?d] =>
    destruct (post_handle a b c d) as [r st'] eqn:Hp end.
  destruct (post_handle_appends _ _ _ _ _ _ Hp) as [rest Hrest].
  cbn. rewrite Hrest. cbn.
  eexists _, rest. split.
  - rewrite <- !app_assoc. reflexivity.
  - repeat split.
Qed.

Lemma parse_failure_recorded_witness :
  let st1 := snd (parse_data demo_env "py:parsers.xml" [] (record_effect demo_st (EOpenRead "/in/empty.xml"))) in
  exists pe rest,
    trace (snd (handle_event demo_env demo_cfgs_parse (demo_ev "empty.xml") demo_st)) =
      (trace st1 ++ ESpawnCallbacks pe (recipients (demo_cfg true true false true None)) :: rest)%list /\
    pe_has_raw_data pe = true /\ pe_raw_data pe = [] /\
    pe_has_data pe = false /\ pe_parse_error pe = Some (demo_error "ValueError").
Proof.
  intros st1.
  apply (parse_failure_recorded demo_env demo_cfgs_parse (demo_ev "empty.xml") demo_st "/in"
           (demo_cfg true true false true None) [] (demo_error "ValueError") st1);
    reflexivity.
Defined.

(** ** C2: archival copy and deletion *)

Definition demo_archive_run : res unit * PState :=
  process_event demo_env demo_cfgs_archive (demo_ev "order.xml") demo_st.

(** C2 (as stated, refuted): with [move_processed_to] and
    [delete_after_pick_up] set, when the copy to the archive raises, the
    original is not removed. *)
Lemma copy_failure_skips_delete :
  In (ECopy "/in/order.xml" "/archive") (trace (snd demo_archive_run)) /\
  ~ In (ERemove "/in/order.xml") (trace (snd demo_archive_run)).
Proof.
  vm_compute. split.
  - right. left. reflexivity.
  - intros [H | [H | [H | []]]]; discriminate.
Qed.

(** C2 (amended): with both actions configured, [post_handle] copies the
    file to [move_processed_to] first and removes the original only after a
    successful copy; when the copy raises, the error propagates out of
    [post_handle] and the original is left in place. *)
Theorem post_handle_copy_then_delete env fp cfg dst st :
  move_processed_to cfg = Some dst -> dst <> "" ->
  delete_after_pick_up cfg = true ->
  (env_copy env fp dst = Ok tt ->
     post_handle env fp cfg st =
       (env_remove env fp, record_effect (record_effect st (ECopy fp dst)) (ERemove fp))) /\
  (forall e, env_copy env fp dst = Err e ->
     post_handle env fp cfg st = (Err e, record_effect st (ECopy fp dst))).
Proof.
  intros Hmove Hdst Hdel.
  assert (Ht : truthy_str (move_processed_to cfg) = true).
  { rewrite Hmove. cbn. destruct (String.eqb_spec dst ""); [contradiction | reflexivity]. }
  unfold post_handle. rewrite Ht, Hdel, Hmove. cbn [default].
  split.
  - intros Hc. cbv [mbind M_bind mret M_ret lift emit id]. rewrite Hc. reflexivity.
  - intros e Hc. cbv [mbind M_bind mret M_ret lift emit id]. rewrite Hc. reflexivity.
Qed.

Lemma post_handle_copy_then_delete_witness :
  post_handle demo_env "/in/order.xml" (demo_cfg false false false true (Some "/archive")) demo_st =
    (Err (demo_error "IOError"), record_effect demo_st (ECopy "/in/order.xml" "/archive")) /\
  post_handle demo_env "/in/order.xml" (demo_cfg false false false true (Some "/done")) demo_st =
    (Ok tt, record_effect (record_effect demo_st (ECopy "/in/order.xml" "/done")) (ERemove "/in/order.xml")).
Proof.
  split.
  - apply (proj2 (post_handle_copy_then_delete demo_env "/in/order.xml"
                    (demo_cfg false false false true (Some "/archive")) "/archive" demo_st
                    eq_refl ltac:(discriminate) eq_refl) (demo_error "IOError")).
    reflexivity.
  - apply (proj1 (post_handle_copy_then_delete demo_env "/in/order.xml"
                    (demo_cfg false false false true (Some "/done")) "/done" demo_st
                    eq_refl ltac:(discriminate) eq_refl)).
    reflexivity.
Defined.

(** ** C9: a configured directory missing at start-up *)

Lemma add_watches_missing env paths path st :
  In path paths -> env_path_exists env path = false ->
  (forall p e, env_add_watch env p = Err e -> is_exception e = true) ->
  exists added e st',
    add_watches env paths st = (Err e, st') /\ is_exception e = true /\
    trace st' = (trace st ++ map EAddWatch added)%list /\ keep_running st' = keep_running st.
Proof.
  intros Hin Hmiss Hadd. revert st.
  induction paths as [|p ps IH]; [destruct Hin|]. intros st.
  cbn [add_watches]. destruct (env_path_exists env p) eqn:Hp.
  - assert (Hin' : In path ps).
    { destruct Hin as [->|Hin]; [congruence | exact Hin]. }
    cbv [mbind M_bind mret M_ret lift emit].
    destruct (env_add_watch env p) as [wd|e] eqn:Hw.
    + destruct (IH Hin' (snd (set_wd wd p (record_effect st (EAddWatch p)))))
        as (added & e & st' & Hrun & He & Htr & Hkr).
      exists (p :: added), e, st'. cbn in Hrun |- *. rewrite Hrun.
      split; [reflexivity|]. split; [exact He|]. split; [|exact Hkr].
      rewrite Htr. cbn. rewrite <- app_assoc. reflexivity.
    + exists [p], e, (record_effect st (EAddWatch p)).
      split; [reflexivity|]. split; [eapply Hadd; eauto|]. split; reflexivity.
  - exists [], (Exc "Exception" (String.append "Path does not exist `" (String.append p "`"))), st.
    split; [reflexivity|]. split; [reflexivity|]. split; [|reflexivity].
    rewrite app_nil_r. reflexivity.
Qed.

Definition demo_missing_run : res unit * PState :=
  run demo_env demo_cfgs_missing [Poll (Ok [demo_ev "order.xml"])] demo_st.

(** C9 (as stated, refuted): the exception raised for a missing directory
    is caught by the outer [except Exception] of [run], which logs it and
    returns normally: start-up does not fail. *)
Lemma missing_dir_error_caught :
  demo_missing_run =
    (Ok tt, record_effect demo_st (ELogExc (Exc "Exception" "Path does not exist `/missing`"))).
Proof. vm_compute. reflexivity. Qed.

(** C9 (amended): when inotify is available and a configured directory
    does not exist, the watch set-up raises, the exception is caught and
    logged by [run]'s outer handler, and [run] returns normally without
    ever polling: the trace grows only by the watches added before the
    failure and the logged exception. *)
Theorem missing_dir_stops_setup env cbc ticks st path cfg fd :
  env_infx_available env = true ->
  env_infx_init env = Ok fd ->
  cbc !! path = Some cfg ->
  env_path_exists env path = false ->
  (forall p e, env_add_watch env p = Err e -> is_exception e = true) ->
  exists added e st',
    run env cbc ticks st = (Ok tt, st') /\ is_exception e = true /\
    trace st' = (trace st ++ map EAddWatch added ++ [ELogExc e])%list /\
    keep_running st' = keep_running st.
Proof.
  intros Hav Hinit Hcfg Hmiss Hadd.
  assert (Hin : In path (map fst (map_to_list cbc))).
  { apply (in_map fst (map_to_list cbc) (path, cfg)).
    apply list_elem_of_In. apply elem_of_map_to_list. exact Hcfg. }
  destruct (add_watches_missing env _ path st Hin Hmiss Hadd)
    as (added & e & st' & Hrun & He & Htr & Hkr).
  exists added, e, (record_effect st' (ELogExc e)).
  unfold run. rewrite Hav. cbn [negb].
  cbv [mbind M_bind lift try_except_Exception]. rewrite Hinit, Hrun, He.
  split; [reflexivity|]. split; [reflexivity|]. split; [|exact Hkr].
  rewrite record_effect_trace, Htr, <- app_assoc. reflexivity.
Qed.

Lemma missing_dir_stops_setup_witness :
  exists added e st',
    demo_missing_run = (Ok tt, st') /\ is_exception e = true /\
    trace st' = (trace demo_st ++ map EAddWatch added ++ [ELogExc e])%list /\
    keep_running st' = keep_running demo_st.
Proof.
  apply (missing_dir_stops_setup demo_env demo_cfgs_missing [Poll (Ok [demo_ev "order.xml"])] demo_st "/missing"
           (demo_cfg true true false true None) 3); try reflexivity.
  intros p e. cbn. destruct (String.eqb p "/in"); discriminate.
Defined.

(** ** C5: per-event isolation in the loop *)

(** Every error [m] can raise is an instance of [Exception]. *)
Definition raises_exceptions {A} (m : M A) : Prop :=
  forall st e st', m st = (Err e, st') -> is_exception e = true.

Section ExceptionsOnly.

Variable env : Env.
Variable callback_config : gmap string Config.
Hypothesis Henv : env_exceptions_only env.

Lemma exc_bind {A B} (m : M A) (k : A -> M B) :
  raises_exceptions m -> (forall a, raises_exceptions (k a)) -> raises_exceptions (m ≫= k).
Proof.
  intros Hm Hk st e st'. rewrite bind_run.
  destruct (m st) as [[a|e1] st1] eqn:E.
  - apply Hk.
  - intros H; inversion H; subst. eapply Hm; eauto.
Qed.

Lemma exc_ret {A} (a : A) : raises_exceptions (mret a).
Proof. intros st e st' H. discriminate. Qed.

Lemma exc_emit ef : raises_exceptions (emit ef).
Proof. intros st e st' H. discriminate. Qed.

Lemma exc_raise {A} cls msg : raises_exceptions (raise (A:=A) (Exc cls msg)).
Proof. intros st e st' H. inversion H; subst. reflexivity. Qed.

Lemma exc_lift {A} (r : res A) :
  (forall e, r = Err e -> is_exception e = true) -> raises_exceptions (lift r).
Proof. intros Hr st e st' H. inversion H; subst. apply Hr. reflexivity. Qed.

Lemma exc_try {A} (m : M A) h :
  raises_exceptions m -> (forall e, raises_exceptions (h e)) ->
  raises_exceptions (try_except_Exception m h).
Proof.
  intros Hm Hh st e st'. unfold try_except_Exception.
  destruct (m st) as [[a|e1] st1] eqn:E.
  - discriminate.
  - destruct (is_exception e1) eqn:He1.
    + apply Hh.
    + intros H; inversion H; subst. eapply Hm; eauto.
Qed.

Lemma exc_lookup_wd wd : raises_exceptions (lookup_wd wd).
Proof.
  intros st e st'. unfold lookup_wd.
  destruct (wd_to_path st !! wd); intros H; inversion H; subst; reflexivity.
Qed.

Lemma exc_dict_get {V} (d : gmap string V) k : raises_exceptions (dict_get d k).
Proof. unfold dict_get. destruct (d !! k); [apply exc_ret | apply exc_raise]. Qed.

Lemma exc_get_parser pid : raises_exceptions (get_parser env pid).
Proof.
  intros st e st'. unfold get_parser.
  destruct (parser_cache st !! pid); [discriminate|].
  revert st e st'. apply exc_bind.
  - unfold unpack2. destruct (py_split ":" (py_strip pid)) as [|a [|b [|c l]]];
      first [apply exc_ret | apply exc_raise].
  - intros [ty nm]. apply exc_bind.
    + destruct (String.eqb ty "py").
      * unfold get_py_parser. apply exc_bind; [apply exc_emit|].
        intros _. apply exc_lift. intros e He. destruct Henv as (Hi & _). eapply Hi; eauto.
      * apply exc_raise.
    + intros p. apply exc_bind; [|intros; apply exc_ret].
      intros st e st' H. discriminate.
Qed.

Lemma exc_parse_data pid raw : raises_exceptions (parse_data env pid raw).
Proof.
  unfold parse_data. apply exc_bind; [apply exc_get_parser|]. intros p.
  apply exc_bind; [apply exc_emit|]. intros _. apply exc_lift.
  intros e He. destruct Henv as (_ & Hc & _). eapply Hc; eauto.
Qed.

Lemma exc_load_content config fp pe : raises_exceptions (load_content env config fp pe).
Proof.
  unfold load_content. destruct (read_on_pickup config); [|apply exc_ret].
  apply exc_bind; [apply exc_emit|]. intros _.
  apply exc_bind.
  - apply exc_lift. intros e He. destruct Henv as (_ & _ & Hr & _). eapply Hr; eauto.
  - intros raw. destruct (parse_on_pickup config); [|apply exc_ret].
    apply exc_try; [|intros; apply exc_ret].
    apply exc_bind; [apply exc_parse_data | intros; apply exc_ret].
Qed.

Lemma exc_post_handle fp config : raises_exceptions (post_handle env fp config).
Proof.
  destruct Henv as (_ & _ & _ & Hcp & Hrm).
  unfold post_handle. apply exc_bind.
  - destruct (truthy_str (move_processed_to config)); [|apply exc_ret].
    apply exc_bind; [apply exc_emit|]. intros _. apply exc_lift. intros e He. eapply Hcp; eauto.
  - intros _. destruct (delete_after_pick_up config); [|apply exc_ret].
    apply exc_bind; [apply exc_emit|]. intros _. apply exc_lift. intros e He. eapply Hrm; eauto.
Qed.

Lemma exc_handle_event ev : raises_exceptions (handle_event env callback_config ev).
Proof.
  unfold handle_event. apply exc_bind; [apply exc_lookup_wd|]. intros dir.
  apply exc_bind; [apply exc_dict_get|]. intros config.
  destruct (negb _); [apply exc_ret|].
  destruct (is_service_hot_deploy config); [apply exc_emit|].
  apply exc_bind; [apply exc_load_content|]. intros pe.
  apply exc_bind; [apply exc_emit|]. intros _. apply exc_post_handle.
Qed.

End ExceptionsOnly.

Lemma process_event_ok env cbc ev st :
  env_exceptions_only env ->
  exists st', process_event env cbc ev st = (Ok tt, st').
Proof.
  intros Henv. unfold process_event, try_except_Exception.
  destruct (handle_event env cbc ev st) as [[[]|e] st1] eqn:E.
  - eauto.
  - rewrite (exc_handle_event env cbc Henv ev st e st1 E). cbn. eauto.
Qed.

Lemma process_events_ok env cbc evs st :
  env_exceptions_only env ->
  process_events env cbc evs st = (Ok tt, snd (process_events env cbc evs st)).
Proof.
  intros Henv. revert st. induction evs as [|ev evs IH]; intros st; [reflexivity|].
  cbn [process_events]. rewrite bind_run.
  destruct (process_event_ok env cbc ev st Henv) as [st1 E]. rewrite E. apply IH.
Qed.

Lemma process_events_keep_running env cbc evs st :
  keep_running (snd (process_events env cbc evs st)) = keep_running st.
Proof.
  set (Q := fun s => keep_running s = keep_running st).
  assert (HQ : preserves Q (process_events env cbc evs)).
  { apply pres_process_events.
    - intros s ef H. exact H.
    - intros pid s r s' H Hs. unfold Q in *.
      destruct (get_parser_shape env pid s r s' Hs) as (_ & Hk & _). congruence. }
  destruct (process_events env cbc evs st) as [r st'] eqn:E.
  apply (HQ st r st'); [reflexivity | exact E].
Qed.

(** The state after the loop has polled each batch in turn and handled each
    of its events through the per-event guard. *)
Definition after_batches env cbc (batches : list (list event)) (st : PState) : PState :=
  fold_left (fun s evs => snd (process_events env cbc evs (record_effect s EPoll))) batches st.

(** C5: when the errors that arise are instances of [Exception] (anything
    but the [KeyboardInterrupt] stop signal), an exception raised while
    handling one event is caught and logged by the per-event guard, the
    guarded handling of an event always completes normally, and the loop
    goes through every event of every polled batch, in order, still
    running at the end. *)
Theorem event_errors_contained env cbc :
  env_exceptions_only env ->
  (forall ev st e st', handle_event env cbc ev st = (Err e, st') ->
     process_event env cbc ev st = (Ok tt, record_effect st' (ELogExc e))) /\
  (forall ev st, fst (process_event env cbc ev st) = Ok tt) /\
  (forall batches st, keep_running st = true ->
     run_loop env cbc (map (fun evs => Poll (Ok evs)) batches) st =
       (Ok tt, after_batches env cbc batches st) /\
     keep_running (after_batches env cbc batches st) = true).
Proof.
  intros Henv. split; [|split].
  - intros ev st e st' H. unfold process_event, try_except_Exception. rewrite H.
    rewrite (exc_handle_event env cbc Henv ev st e st' H). reflexivity.
  - intros ev st. destruct (process_event_ok env cbc ev st Henv) as [st' ->]. reflexivity.
  - induction batches as [|evs batches IH]; intros st Hkr; [split; [cbn; rewrite Hkr|]; auto|].
    cbn [map run_loop]. rewrite Hkr.
    cbv [try_except_KeyboardInterrupt mbind M_bind emit lift].
    rewrite (process_events_ok env cbc evs _ Henv).
    apply IH. rewrite process_events_keep_running. exact Hkr.
Qed.

Lemma event_errors_contained_witness :
  run_loop demo_env demo_cfgs_raw
    (map (fun evs => Poll (Ok evs)) [[demo_ev "gone.xml"; demo_ev "order.xml"]; [demo_ev "x.txt"]]) demo_st =
    (Ok tt, after_batches demo_env demo_cfgs_raw
              [[demo_ev "gone.xml"; demo_ev "order.xml"]; [demo_ev "x.txt"]] demo_st).
Proof.
  refine (proj1 (proj2 (proj2 (event_errors_contained demo_env demo_cfgs_raw _))
            [[demo_ev "gone.xml"; demo_ev "order.xml"]; [demo_ev "x.txt"]] demo_st eq_refl)).
  repeat split; intros *; cbn;
    repeat match goal with |- context [if ?b then _ else _] => destruct b end;
    try discriminate; intros H; inversion H; reflexivity.
Defined.

(** * Further parts of the manager *)

(** ** [PickupManager.__init__]: configuration keyed by directory *)

(** A value of a configuration [Bunch]. *)
Inductive cval :=
| CStr (s : string)
| CBool (b : bool)
| CStrs (l : list string)
| CNone.

Global Instance cval_eq_dec : EqDecision cval.
Proof. solve_decision. Defined.

(** [self.callback_config]: a dictionary keyed by the [pickup_from] value,
    each entry a [Bunch] (string-keyed). Kept as an association list. *)
Fixpoint cb_lookup (k : cval) (d : list (cval * gmap string cval)) : option (gmap string cval) :=
  match d with
  | [] => None
  | (k', v) :: d' => if decide (k = k') then Some v else cb_lookup k d'
  end.

(** [d[k] = v]: replaces the entry in place, or adds it at the end. *)
Fixpoint cb_set (k : cval) (v : gmap string cval) (d : list (cval * gmap string cval))
    : list (cval * gmap string cval) :=
  match d with
  | [] => [(k, v)]
  | (k', v') :: d' => if decide (k = k') then (k, v) :: d' else (k', v') :: cb_set k v d'
  end.

(** The loop of [__init__] over [self.config.items()]:
    [cb_config = self.callback_config.setdefault(section_config.pickup_from, Bunch())],
    [cb_config.update(section_config)], [cb_config.stanza = stanza].
    A section without [pickup_from] raises [AttributeError] ([Bunch]). *)
Fixpoint build_callback_config (items : list (string * gmap string cval))
    (cb : list (cval * gmap string cval)) : res (list (cval * gmap string cval)) :=
  match items with
  | [] => Ok cb
  | (stanza_name, section_config) :: items' =>
      match section_config !! "pickup_from" with
      | None => Err (Exc "AttributeError" "pickup_from")
      | Some dir =>
          let cb_config := default ∅ (cb_lookup dir cb) in
          let cb_config := <["stanza" := CStr stanza_name]> (section_config ∪ cb_config) in
          build_callback_config items' (cb_set dir cb_config cb)
      end
  end.

(** [PickupManager.__init__]: the directory-keyed configuration and the
    initial mutable state. *)
Definition PickupManager_init (items : list (string * gmap string cval))
    : res (list (cval * gmap string cval) * PState) :=
  match build_callback_config items [] with
  | Ok cb => Ok (cb, {| parser_cache := ∅; wd_to_path := ∅; keep_running := true; trace := [] |})
  | Err e => Err e
  end.

(** The value of key [k] in the last section sourced from [dir] that has
    [k], if any; [acc] is the value before the first section. *)
Fixpoint last_value (dir : cval) (k : string) (items : list (string * gmap string cval))
    (acc : option cval) : option cval :=
  match items with
  | [] => acc
  | (_, sc) :: items' =>
      last_value dir k items'
        (if decide (sc !! "pickup_from" = Some dir)
         then match sc !! k with Some v => Some v | None => acc end
         else acc)
  end.

(** The name of the last stanza sourced from [dir], as a [Bunch] value. *)
Fixpoint last_stanza (dir : cval) (items : list (string * gmap string cval))
    (acc : option cval) : option cval :=
  match items with
  | [] => acc
  | (name, sc) :: items' =>
      last_stanza dir items' (if decide (sc !! "pickup_from" = Some dir) then Some (CStr name) else acc)
  end.

Lemma cb_lookup_set_eq k v d : cb_lookup k (cb_set k v d) = Some v.
Proof.
  induction d as [|[k' v'] d IH]; cbn.
  - rewrite decide_True by reflexivity. reflexivity.
  - destruct (decide (k = k')) as [->|Hne]; cbn.
    + rewrite decide_True by reflexivity. reflexivity.
    + rewrite decide_False by exact Hne. exact IH.
Qed.

Lemma cb_lookup_set_ne k k2 v d : k2 <> k -> cb_lookup k2 (cb_set k v d) = cb_lookup k2 d.
Proof.
  intros Hne. induction d as [|[k' v'] d IH]; cbn.
  - rewrite decide_False by exact Hne. reflexivity.
  - destruct (decide (k = k')) as [->|Hne']; cbn.
    + rewrite !decide_False by exact Hne. reflexivity.
    + destruct (decide (k2 = k')); [reflexivity | exact IH].
Qed.

Lemma cb_set_keys_in k v d x :
  In x (map fst (cb_set k v d)) <-> x = k \/ In x (map fst d).
Proof.
  induction d as [|[k' v'] d IH]; cbn.
  - split; intros [H|H]; subst; auto; contradiction.
  - destruct (decide (k = k')) as [->|Hne]; cbn.
    + split; intros H; repeat destruct H as [H|H]; subst; auto.
    + rewrite IH. split; intros H; repeat destruct H as [H|H]; subst; auto.
Qed.

Lemma cb_set_nodup k v d : NoDup (map fst d) -> NoDup (map fst (cb_set k v d)).
Proof.
  induction d as [|[k' v'] d IH]; cbn; intros Hnd.
  - constructor; [cbn; intros H; inversion H | constructor].
  - inversion Hnd as [|? ? Hnin Hnd']; subst.
    destruct (decide (k = k')) as [->|Hne]; cbn.
    + constructor; assumption.
    + constructor; [|apply IH; exact Hnd'].
      rewrite list_elem_of_In, cb_set_keys_in. rewrite list_elem_of_In in Hnin.
      intros [H|H]; [congruence | contradiction].
Qed.

Lemma build_callback_config_keys items cb cb' :
  build_callback_config items cb = Ok cb' ->
  NoDup (map fst cb) ->
  NoDup (map fst cb') /\
  (forall d, In d (map fst cb') <->
     In d (map fst cb) \/ exists name sc, In (name, sc) items /\ sc !! "pickup_from" = Some d).
Proof.
  revert cb. induction items as [|[name sc] items IH]; intros cb Hb Hnd; cbn in Hb.
  - inversion Hb; subst. split; [exact Hnd|]. intros d. split; [auto|].
    intros [H|(n & s & [] & _)]; exact H.
  - destruct (sc !! "pickup_from") as [dir|] eqn:Hdir; [|discriminate].
    destruct (IH _ Hb (cb_set_nodup _ _ _ Hnd)) as [Hnd' Hin].
    split; [exact Hnd'|]. intros d. rewrite Hin, cb_set_keys_in. split.
    + intros [[->|H]|(n & s & Hs & Hp)]; auto.
      * right. exists name, sc. split; [left; reflexivity | exact Hdir].
      * right. exists n, s. split; [right; exact Hs | exact Hp].
    + intros [H|(n & s & [Hs|Hs] & Hp)]; auto.
      * inversion Hs; subst. left. left. congruence.
      * right. exists n, s. auto.
Qed.

Lemma build_callback_config_values items cb cb' :
  build_callback_config items cb = Ok cb' ->
  forall d,
    (forall k, k <> "stanza" ->
       (cb_lookup d cb' ≫= (.!! k)) = last_value d k items (cb_lookup d cb ≫= (.!! k))) /\
    (cb_lookup d cb' ≫= (.!! "stanza")) = last_stanza d items (cb_lookup d cb ≫= (.!! "stanza")).
Proof.
  revert cb. induction items as [|[name sc] items IH]; intros cb Hb d; cbn in Hb.
  - inversion Hb; subst. split; [intros; reflexivity | reflexivity].
  - destruct (sc !! "pickup_from") as [dir|] eqn:Hdir; [|discriminate].
    destruct (IH _ Hb d) as [Hk Hs]. cbn [last_value last_stanza]. split.
    + intros k Hne. rewrite (Hk k Hne). f_equal.
      destruct (decide (sc !! "pickup_from" = Some d)) as [Hd|Hd].
      * assert (dir = d) as <- by congruence.
        rewrite cb_lookup_set_eq. cbn. rewrite lookup_insert_ne by congruence.
        destruct (sc !! k) as [v|] eqn:Hk'.
        -- rewrite (lookup_union_Some_l _ _ _ _ Hk'). reflexivity.
        -- rewrite (lookup_union_r _ _ _ Hk').
           destruct (cb_lookup dir cb); cbn; [reflexivity | apply lookup_empty].
      * rewrite cb_lookup_set_ne by congruence. reflexivity.
    + rewrite Hs. f_equal.
      destruct (decide (sc !! "pickup_from" = Some d)) as [Hd|Hd].
      * assert (dir = d) as <- by congruence.
        rewrite cb_lookup_set_eq. cbn. rewrite lookup_insert_eq. reflexivity.
      * rewrite cb_lookup_set_ne by congruence. reflexivity.
Qed.



(** ** Demo configuration sections *)

Definition demo_items : list (string * gmap string cval) := [
  ("orders", {["pickup_from" := CStr "/in"; "read_on_pickup" := CBool true;
               "patterns" := CStrs ["order"]]});
  ("orders-parsed", {["pickup_from" := CStr "/in"; "parse_on_pickup" := CBool true;
                      "read_on_pickup" := CBool false]});
  ("archive", {["pickup_from" := CStr "/out"]})
].

Definition demo_cb : list (cval * gmap string cval) :=
  match build_callback_config demo_items [] with Ok cb => cb | Err _ => [] end.

Definition init_st : PState := {|
  parser_cache := ∅; wd_to_path := ∅; keep_running := true; trace := []
|}.

(** ** [PickupManager.invoke_callbacks] *)

(** The [request] dictionary built from a [PickupEvent]; [ts_utc] is
    [datetime.utcnow().isoformat()], taken as an input. *)
Record Request := {
  rq_base_dir : option string;
  rq_file_name : option string;
  rq_full_path : option string;
  rq_stanza : option string;
  rq_ts_utc : string;
  rq_raw_data : bytes;
  rq_data : pyval;
  rq_has_raw_data : bool;
  rq_has_data : bool;
  rq_parse_error : option exn
}.

(** ['data': pickup_event.data if pickup_event.data is not _singleton else None] *)
Definition request_data (d : data_slot) : pyval :=
  match d with
  | Singleton => PyNone
  | Val v => v
  end.

Definition invoke_request (pe : PickupEvent) (now : string) : Request := {|
  rq_base_dir := pe_base_dir pe;
  rq_file_name := pe_file_name pe;
  rq_full_path := pe_full_path pe;
  rq_stanza := pe_stanza pe;
  rq_ts_utc := now;
  rq_raw_data := pe_raw_data pe;
  rq_data := request_data (pe_data pe);
  rq_has_raw_data := pe_has_raw_data pe;
  rq_has_data := pe_has_data pe;
  rq_parse_error := pe_parse_error pe
|}.

(** [for recipient in recipients: spawn_greenlet(self.server.invoke, recipient, request)]:
    the units of work handed out, one per recipient, in order (with
    [spawn_greenlet] modelled as in [spawn], nothing reaches the
    [except Exception] guard). *)
Definition invoke_callbacks (pe : PickupEvent) (recipients : list string) (now : string)
    : list (string * Request) :=
  let request := invoke_request pe now in
  map (fun recipient => (recipient, request)) recipients.

(** ** Environments for the loop examples *)

(** [demo_env] where reading [/in/gone-ctrlc.xml] is interrupted by
    Ctrl-C. *)
Definition demo_env_ki : Env := {|
  env_infx_available := env_infx_available demo_env;
  env_infx_init := env_infx_init demo_env;
  env_path_exists := env_path_exists demo_env;
  env_add_watch := env_add_watch demo_env;
  env_match := env_match demo_env;
  env_import := env_import demo_env;
  env_call := env_call demo_env;
  env_read := fun p =>
    if String.eqb p "/in/gone-ctrlc.xml" then Err KeyboardInterrupt else env_read demo_env p;
  env_copy := env_copy demo_env;
  env_remove := env_remove demo_env
|}.

(** [demo_env] with another outcome of [import gevent_inotifyx] and
    [infx.init()]. *)
Definition demo_env_infx (avail : bool) (init : res nat) : Env := {|
  env_infx_available := avail;
  env_infx_init := init;
  env_path_exists := env_path_exists demo_env;
  env_add_watch := env_add_watch demo_env;
  env_match := env_match demo_env;
  env_import := env_import demo_env;
  env_call := env_call demo_env;
  env_read := env_read demo_env;
  env_copy := env_copy demo_env;
  env_remove := env_remove demo_env
|}.

(** * Further properties of the code *)

(** [__init__] builds one [callback_config] entry per distinct
    [pickup_from] value among the configuration sections, and nothing else;
    the manager starts with an empty parser cache, no watches and
    [keep_running] set. *)
Theorem init_one_entry_per_directory items cb st0 :
  PickupManager_init items = Ok (cb, st0) ->
  NoDup (map fst cb) /\
  (forall d, In d (map fst cb) <->
     exists name sc, In (name, sc) items /\ sc !! "pickup_from" = Some d) /\
  parser_cache st0 = ∅ /\ wd_to_path st0 = ∅ /\ keep_running st0 = true.
Proof.
  unfold PickupManager_init. destruct (build_callback_config items []) as [cb'|e] eqn:Hb;
    [|discriminate].
  intros H; inversion H; subst.
  destruct (build_callback_config_keys items [] cb Hb ltac:(constructor)) as [Hnd Hin].
  split; [exact Hnd|]. split; [|auto].
  intros d. rewrite Hin. split; [intros [[]|H']; exact H' | auto].
Qed.


Lemma init_one_entry_per_directory_witness :
  NoDup (map fst demo_cb) /\
  (forall d, In d (map fst demo_cb) <->
     exists name sc, In (name, sc) demo_items /\ sc !! "pickup_from" = Some d) /\
  parser_cache init_st = ∅ /\ wd_to_path init_st = ∅ /\ keep_running init_st = true.
Proof. apply init_one_entry_per_directory. vm_compute. reflexivity. Defined.

(** [__init__] merges the sections sourced from one directory key by key:
    for every key other than [stanza], the directory's entry holds the
    value from the last section (in [config.items()] order) for that
    directory that sets the key, so a later section overrides only the keys
    it has; [stanza] holds the name of the last such section. *)
Theorem init_merges_sections_per_key items cb st0 d :
  PickupManager_init items = Ok (cb, st0) ->
  (forall k, k <> "stanza" -> (cb_lookup d cb ≫= (.!! k)) = last_value d k items None) /\
  (cb_lookup d cb ≫= (.!! "stanza")) = last_stanza d items None.
Proof.
  unfold PickupManager_init. destruct (build_callback_config items []) as [cb'|e] eqn:Hb;
    [|discriminate].
  intros H; inversion H; subst. exact (build_callback_config_values items [] cb Hb d).
Qed.

Lemma init_merges_sections_per_key_witness :
  (forall k, k <> "stanza" ->
     (cb_lookup (CStr "/in") demo_cb ≫= (.!! k)) = last_value (CStr "/in") k demo_items None) /\
  (cb_lookup (CStr "/in") demo_cb ≫= (.!! "stanza")) = Some (CStr "orders-parsed") /\
  (cb_lookup (CStr "/in") demo_cb ≫= (.!! "read_on_pickup")) = Some (CBool false) /\
  (cb_lookup (CStr "/in") demo_cb ≫= (.!! "patterns")) = Some (CStrs ["order"]).
Proof.
  destruct (init_merges_sections_per_key demo_items demo_cb init_st (CStr "/in"))
    as [Hk Hs]; [vm_compute; reflexivity|].
  split; [exact Hk|]. split; [rewrite Hs; reflexivity|].
  split; [rewrite Hk by discriminate; reflexivity|].
  rewrite Hk by discriminate. reflexivity.
Defined.



(** ** Splitting and joining identifiers *)

Lemma str_app_nil_l s : String.append "" s = s.
Proof. reflexivity. Qed.

Lemma str_app_cons c s t : String.append (String c s) t = String c (String.append s t).
Proof. reflexivity. Qed.

Lemma str_app_nil_r s : String.append s "" = s.
Proof. induction s as [|c s IH]; [reflexivity|]. rewrite str_app_cons, IH. reflexivity. Qed.

Lemma str_app_assoc a b c :
  String.append a (String.append b c) = String.append (String.append a b) c.
Proof.
  induction a as [|x a IH]; [reflexivity|]. rewrite !str_app_cons, IH. reflexivity.
Qed.

Lemma split_go_nonempty sep s cur : split_go sep s cur <> [].
Proof.
  revert cur. induction s as [|c s IH]; intros cur; cbn; [discriminate|].
  destruct (Ascii.eqb c sep); [discriminate | apply IH].
Qed.

(** Splitting a concatenation: the last piece of the left part continues
    into the right part. *)
Lemma split_go_app sep s t cur :
  split_go sep (String.append s t) cur =
  (removelast (split_go sep s cur) ++ split_go sep t (List.last (split_go sep s cur) ""))%list.
Proof.
  revert cur. induction s as [|c s IH]; intros cur; [reflexivity|].
  rewrite str_app_cons. cbn. destruct (Ascii.eqb c sep); [|apply IH].
  rewrite IH. destruct (split_go sep s "") as [|x l] eqn:E.
  - exfalso. exact (split_go_nonempty sep s "" E).
  - reflexivity.
Qed.

Definition no_char (sep : ascii) (s : string) : bool :=
  forallb (fun ch => negb (Ascii.eqb ch sep)) (list_ascii_of_string s).

Lemma split_go_no_sep sep s cur :
  no_char sep s = true -> split_go sep s cur = [String.append cur s].
Proof.
  unfold no_char. revert cur. induction s as [|c s IH]; intros cur; cbn.
  - rewrite str_app_nil_r. reflexivity.
  - intros H. apply andb_prop in H as [Hc Hs].
    destruct (Ascii.eqb c sep); [discriminate|].
    rewrite IH by exact Hs. rewrite <- str_app_assoc. reflexivity.
Qed.

(** [sep.join(s.split(sep)) == s] *)
Lemma join_split_go sep s cur :
  String.concat (String sep "") (split_go sep s cur) = String.append cur s.
Proof.
  revert cur. induction s as [|c s IH]; intros cur.
  - cbn [split_go String.concat]. rewrite str_app_nil_r. reflexivity.
  - cbn [split_go]. destruct (Ascii.eqb_spec c sep) as [->|Hne].
    + pose proof (split_go_nonempty sep s "") as Hn.
      transitivity (String.append cur (String.append (String sep "")
                      (String.concat (String sep "") (split_go sep s "")))).
      { destruct (split_go sep s "") as [|x l]; [contradiction | reflexivity]. }
      rewrite IH. reflexivity.
    + rewrite IH, <- str_app_assoc. reflexivity.
Qed.

(** ** Parser resolution, further *)

Lemma get_py_parser_run env nm st :
  get_py_parser env nm st =
    (env_import env (py_join "." (removelast (py_split "." nm))) (default "" (last (py_split "." nm))),
     record_effect st (EImport (py_join "." (removelast (py_split "." nm)))
                               (default "" (last (py_split "." nm))))).
Proof. reflexivity. Qed.

Lemma get_parser_miss env pid st :
  parser_cache st !! pid = None ->
  get_parser env pid st =
    ('(type, name) ← unpack2 (py_split ":" (py_strip pid));
     parser ← (if String.eqb type "py" then get_py_parser env name else get_service_parser name);
     cache_parser pid parser;;
     mret parser) st.
Proof. intros H. unfold get_parser. rewrite H. reflexivity. Qed.

(** A successful resolution of an identifier that was not cached went
    through the [py:] branch. *)
Lemma get_parser_miss_ok env pid st p st1 :
  parser_cache st !! pid = None -> get_parser env pid st = (Ok p, st1) ->
  exists nm, py_split ":" (py_strip pid) = ["py"; nm] /\
    let m := py_join "." (removelast (py_split "." nm)) in
    let c := default "" (last (py_split "." nm)) in
    env_import env m c = Ok p /\
    st1 = {| parser_cache := <[pid := p]> (parser_cache st); wd_to_path := wd_to_path st;
             keep_running := keep_running st; trace := (trace st ++ [EImport m c])%list |}.
Proof.
  intros Hn. rewrite (get_parser_miss env pid st Hn), bind_run.
  destruct (py_split ":" (py_strip pid)) as [|ty [|nm [|x rest]]]; cbn;
    try (intros H; inversion H; fail).
  destruct (String.eqb_spec ty "py") as [->|Hty]; cbn; [|intros H; inversion H].
  unfold get_py_parser. rewrite !bind_run. cbn.
  match goal with |- context [env_import ?en ?a ?b] => destruct (env_import en a b) as [q|e] eqn:Hi end;
    cbn; intros H; inversion H; subst.
  exists nm. split; [reflexivity|]. split; [exact Hi | reflexivity].
Qed.

Lemma parse_data_run env pid raw st :
  parse_data env pid raw st =
    match get_parser env pid st with
    | (Ok p, st1) => (env_call env p raw, record_effect st1 (ECallParser p))
    | (Err e, st1) => (Err e, st1)
    end.
Proof. unfold parse_data. rewrite bind_run. destruct (get_parser env pid st) as [[p|e] st1]; reflexivity. Qed.

(** [get_py_parser] splits a dotted name at its last dot: for a module path
    [m] and a callable name [c] without dots, [m.c] imports [c] from [m];
    a name without any dot is looked up in the module [''] (empty module
    path). *)
Theorem get_py_parser_last_dot env m c st :
  no_char "." c = true ->
  get_py_parser env (String.append m (String "." c)) st =
    (env_import env m c, record_effect st (EImport m c)) /\
  get_py_parser env c st = (env_import env "" c, record_effect st (EImport "" c)).
Proof.
  intros Hc. rewrite !get_py_parser_run. unfold py_split.
  assert (Hnd : split_go "." c "" = [c]) by (rewrite split_go_no_sep by exact Hc; reflexivity).
  split; [|rewrite Hnd; reflexivity].
  rewrite split_go_app.
  set (L := split_go "." m "").
  assert (HL : L <> []) by apply split_go_nonempty.
  assert (Hdot : split_go "." (String "." c) (List.last L "") = [List.last L ""; c]).
  { cbn [split_go]. rewrite Ascii.eqb_refl, Hnd. reflexivity. }
  rewrite Hdot.
  assert (Hparts : (removelast L ++ [List.last L ""; c])%list = (L ++ [c])%list).
  { replace (L ++ [c])%list with ((removelast L ++ [List.last L ""]) ++ [c])%list
      by (rewrite <- (app_removelast_last "" HL); reflexivity).
    rewrite <- app_assoc. reflexivity. }
  rewrite Hparts, removelast_last, last_snoc. cbn [default].
  assert (Hm : py_join "." L = m).
  { unfold py_join, L. exact (join_split_go "." m ""). }
  rewrite Hm. reflexivity.
Qed.

Lemma get_py_parser_last_dot_witness :
  get_py_parser demo_env "parsers.xml" demo_st =
    (Ok 7, record_effect demo_st (EImport "parsers" "xml")) /\
  get_py_parser demo_env "xml" demo_st =
    (Err (demo_error "ImportError"), record_effect demo_st (EImport "" "xml")).
Proof.
  exact (get_py_parser_last_dot demo_env "parsers" "xml" demo_st eq_refl).
Defined.

(** The parser cache is keyed by the identifier as written, not by its
    stripped form: after [pid] has been resolved, a different identifier
    [pid'] that only differs by surrounding whitespace is resolved again,
    with a second import of the same module and callable, and is cached
    under its own key. *)
Theorem get_parser_key_as_written env pid pid' st p st1 :
  parser_cache st !! pid = None -> parser_cache st !! pid' = None ->
  pid' <> pid -> py_strip pid' = py_strip pid ->
  get_parser env pid st = (Ok p, st1) ->
  exists m c,
    trace st1 = (trace st ++ [EImport m c])%list /\
    get_parser env pid' st1 =
      (Ok p, {| parser_cache := <[pid' := p]> (parser_cache st1); wd_to_path := wd_to_path st1;
                keep_running := keep_running st1; trace := (trace st1 ++ [EImport m c])%list |}).
Proof.
  intros Hn Hn' Hne Hstrip H.
  destruct (get_parser_miss_ok env pid st p st1 Hn H) as (nm & Hsplit & Himp & ->).
  cbn zeta in Himp.
  eexists _, _. split; [reflexivity|].
  rewrite get_parser_miss by (cbn; rewrite lookup_insert_ne by congruence; exact Hn').
  rewrite bind_run, Hstrip, Hsplit. cbn.
  unfold get_py_parser. rewrite !bind_run. cbn. rewrite Himp. reflexivity.
Qed.

Lemma get_parser_key_as_written_witness :
  exists m c,
    trace (snd (get_parser demo_env "py:parsers.xml" demo_st)) = (trace demo_st ++ [EImport m c])%list /\
    get_parser demo_env " py:parsers.xml" (snd (get_parser demo_env "py:parsers.xml" demo_st)) =
      (Ok 7, {| parser_cache := <[" py:parsers.xml" := 7]>
                  (parser_cache (snd (get_parser demo_env "py:parsers.xml" demo_st)));
                wd_to_path := wd_to_path (snd (get_parser demo_env "py:parsers.xml" demo_st));
                keep_running := keep_running (snd (get_parser demo_env "py:parsers.xml" demo_st));
                trace := (trace (snd (get_parser demo_env "py:parsers.xml" demo_st)) ++ [EImport m c])%list |}).
Proof.
  apply (get_parser_key_as_written demo_env "py:parsers.xml" " py:parsers.xml" demo_st 7).
  - reflexivity.
  - reflexivity.
  - discriminate.
  - reflexivity.
  - reflexivity.
Defined.

(** An identifier that does not have the form [ns:name] (no [:], or more
    than one) makes [get_parser] raise [ValueError] from the unpacking,
    with no import and no cache write; since such an identifier is never
    cached, starting from the empty cache of [__init__] it raises again
    after any events have been handled. *)
Theorem get_parser_malformed_raises env cbc pid st evs :
  parser_namespace pid = None -> parser_cache st = ∅ ->
  let st' := snd (process_events env cbc evs st) in
  exists msg, get_parser env pid st' = (Err (Exc "ValueError" msg), st').
Proof.
  intros Hns H0 st'.
  assert (Hpy : cache_py st').
  { apply process_events_cache_py. intros k p Hk. rewrite H0 in Hk. discriminate. }
  assert (Hnone : parser_cache st' !! pid = None).
  { destruct (parser_cache st' !! pid) as [p|] eqn:E; [|reflexivity].
    apply Hpy in E. congruence. }
  rewrite (get_parser_miss env pid st' Hnone), bind_run.
  unfold parser_namespace in Hns.
  destruct (py_split ":" (py_strip pid)) as [|a [|nm [|x rest]]]; try discriminate;
    cbn; eexists; reflexivity.
Qed.

Lemma get_parser_malformed_raises_witness :
  (exists msg, get_parser demo_env "parsers.xml"
     (snd (process_events demo_env demo_cfgs_parse [demo_ev "order.xml"] init_st)) =
     (Err (Exc "ValueError" msg), snd (process_events demo_env demo_cfgs_parse [demo_ev "order.xml"] init_st))) /\
  (exists msg, get_parser demo_env "py:parsers:xml"
     (snd (process_events demo_env demo_cfgs_parse [] init_st)) =
     (Err (Exc "ValueError" msg), snd (process_events demo_env demo_cfgs_parse [] init_st))).
Proof.
  split.
  - apply (get_parser_malformed_raises demo_env demo_cfgs_parse "parsers.xml" init_st); reflexivity.
  - apply (get_parser_malformed_raises demo_env demo_cfgs_parse "py:parsers:xml" init_st); reflexivity.
Defined.

(** A parser that was resolved but raised when called on the data stays
    cached: only failures of the resolution itself are not cached, so the
    next event reuses the parser without importing it again. *)
Theorem parser_cached_after_failed_call env pid raw st p st1 e :
  get_parser env pid st = (Ok p, st1) -> env_call env p raw = Err e ->
  let st2 := record_effect st1 (ECallParser p) in
  parse_data env pid raw st = (Err e, st2) /\
  parser_cache st2 !! pid = Some p /\ get_parser env pid st2 = (Ok p, st2).
Proof.
  intros Hg Hc st2.
  assert (Hk : parser_cache st2 !! pid = Some p) by exact (get_parser_ok_cache env pid st p st1 Hg).
  split; [rewrite parse_data_run, Hg, Hc; reflexivity|].
  split; [exact Hk | apply get_parser_cached; exact Hk].
Qed.

Lemma parser_cached_after_failed_call_witness :
  let st1 := snd (get_parser demo_env "py:parsers.xml" demo_st) in
  let st2 := record_effect st1 (ECallParser 7) in
  parse_data demo_env "py:parsers.xml" [] demo_st = (Err (demo_error "ValueError"), st2) /\
  parser_cache st2 !! "py:parsers.xml" = Some 7 /\ get_parser demo_env "py:parsers.xml" st2 = (Ok 7, st2).
Proof.
  intros st1 st2.
  apply (parser_cached_after_failed_call demo_env "py:parsers.xml" [] demo_st 7 st1 (demo_error "ValueError")).
  - reflexivity.
  - reflexivity.
Defined.

(** ** The per-event handler, further *)

Lemma process_event_extends env cbc ev st :
  exists rest, trace (snd (process_event env cbc ev st)) =
               (trace (snd (handle_event env cbc ev st)) ++ rest)%list.
Proof.
  unfold process_event, try_except_Exception.
  destruct (handle_event env cbc ev st) as [[a|e] st1]; cbn.
  - exists []. rewrite app_nil_r. reflexivity.
  - destruct (is_exception e); cbn; [eexists; reflexivity|].
    exists []. rewrite app_nil_r. reflexivity.
Qed.

(** An event whose watch descriptor is not registered, or whose directory
    has no configuration, raises [KeyError] inside the per-event guard: it
    is logged and nothing else happens. *)
Theorem unknown_watch_logged env cbc ev st :
  (wd_to_path st !! ev_wd ev = None ->
     process_event env cbc ev st = (Ok tt, record_effect st (ELogExc key_error))) /\
  (forall dir, wd_to_path st !! ev_wd ev = Some dir -> cbc !! dir = None ->
     process_event env cbc ev st = (Ok tt, record_effect st (ELogExc key_error))).
Proof.
  unfold process_event, try_except_Exception, handle_event. rewrite bind_run. unfold lookup_wd.
  split.
  - intros H. rewrite H. reflexivity.
  - intros dir H Hc. rewrite H, bind_run. unfold dict_get. rewrite Hc. reflexivity.
Qed.

Lemma unknown_watch_logged_witness :
  process_event demo_env demo_cfgs_raw {| ev_wd := 9; ev_name := "order.xml" |} demo_st =
    (Ok tt, record_effect demo_st (ELogExc key_error)) /\
  process_event demo_env demo_cfgs_missing (demo_ev "order.xml") demo_st =
    (Ok tt, record_effect demo_st (ELogExc key_error)).
Proof.
  split.
  - apply (proj1 (unknown_watch_logged demo_env demo_cfgs_raw {| ev_wd := 9; ev_name := "order.xml" |} demo_st)).
    reflexivity.
  - apply (proj2 (unknown_watch_logged demo_env demo_cfgs_missing (demo_ev "order.xml") demo_st) "/in");
      reflexivity.
Defined.

(** An event whose file name matches none of its directory's patterns
    (in particular, any event of a directory with no patterns) is skipped
    by [continue]: the manager is left exactly as it was. *)
Theorem non_matching_event_ignored env cbc ev st dir cfg :
  wd_to_path st !! ev_wd ev = Some dir -> cbc !! dir = Some cfg ->
  should_pick_up env (ev_name ev) (patterns cfg) <> Some true ->
  handle_event env cbc ev st = (Ok tt, st) /\ process_event env cbc ev st = (Ok tt, st).
Proof.
  intros Hwd Hcfg Hpick.
  assert (H : handle_event env cbc ev st = (Ok tt, st)).
  { unfold handle_event. rewrite bind_run. unfold lookup_wd. rewrite Hwd.
    rewrite bind_run. unfold dict_get. rewrite Hcfg. rewrite ret_run.
    destruct (should_pick_up env (ev_name ev) (patterns cfg)) as [[]|]; cbn;
      [contradiction | reflexivity | reflexivity]. }
  split; [exact H|]. unfold process_event, try_except_Exception. rewrite H. reflexivity.
Qed.

Lemma non_matching_event_ignored_witness :
  handle_event demo_env demo_cfgs_raw (demo_ev "notes.txt") demo_st = (Ok tt, demo_st) /\
  process_event demo_env demo_cfgs_raw (demo_ev "notes.txt") demo_st = (Ok tt, demo_st).
Proof.
  apply (non_matching_event_ignored demo_env demo_cfgs_raw (demo_ev "notes.txt") demo_st "/in"
           (demo_cfg true false false false None)).
  - reflexivity.
  - reflexivity.
  - discriminate.
Defined.




(** Without [read_on_pickup], a qualifying event is handed to the
    recipients before anything else happens (no read, no parse): each
    recipient gets the same request, with the event's location and stanza,
    data [None], raw data the empty string and both flags [False]. *)
Theorem unread_event_callbacks env cbc ev st dir cfg now :
  wd_to_path st !! ev_wd ev = Some dir -> cbc !! dir = Some cfg ->
  should_pick_up env (ev_name ev) (patterns cfg) = Some true ->
  is_service_hot_deploy cfg = false -> read_on_pickup cfg = false ->
  exists pe rest,
    trace (snd (process_event env cbc ev st)) =
      (trace st ++ ESpawnCallbacks pe (recipients cfg) :: rest)%list /\
    invoke_callbacks pe (recipients cfg) now =
      map (fun r => (r, {| rq_base_dir := Some dir; rq_file_name := Some (ev_name ev);
                           rq_full_path := Some (os_path_join dir (ev_name ev));
                           rq_stanza := Some (stanza cfg); rq_ts_utc := now;
                           rq_raw_data := []; rq_data := PyNone;
                           rq_has_raw_data := false; rq_has_data := false;
                           rq_parse_error := None |})) (recipients cfg).
Proof.
  intros Hwd Hcfg Hpick Hhot Hread.
  destruct (process_event_extends env cbc ev st) as [rest1 Hpe]. rewrite Hpe.
  rewrite (handle_event_qualifying env cbc ev st dir cfg Hwd Hcfg Hpick). cbn zeta.
  rewrite Hhot. unfold load_content. rewrite Hread.
  cbv [mbind M_bind mret M_ret spawn emit].
  match goal with |- context [post_handle ?a ?b ?c ?d] =>
    destruct (post_handle a b c d) as [r st'] eqn:Hp end.
  destruct (post_handle_appends _ _ _ _ _ _ Hp) as [rest Hrest].
  cbn. rewrite Hrest. cbn.
  eexists _, (rest ++ rest1)%list. split.
  - rewrite <- !app_assoc. reflexivity.
  - reflexivity.
Qed.

Lemma unread_event_callbacks_witness :
  exists pe rest,
    trace (snd (process_event demo_env demo_cfgs_archive (demo_ev "gone.xml") demo_st)) =
      (trace demo_st ++ ESpawnCallbacks pe ["svc.a"; "svc.b"] :: rest)%list /\
    invoke_callbacks pe ["svc.a"; "svc.b"] "2026-10-17T00:00:00" =
      map (fun r => (r, {| rq_base_dir := Some "/in"; rq_file_name := Some "gone.xml";
                           rq_full_path := Some "/in/gone.xml";
                           rq_stanza := Some "orders"; rq_ts_utc := "2026-10-17T00:00:00";
                           rq_raw_data := []; rq_data := PyNone;
                           rq_has_raw_data := false; rq_has_data := false;
                           rq_parse_error := None |})) ["svc.a"; "svc.b"].
Proof.
  apply (unread_event_callbacks demo_env demo_cfgs_archive (demo_ev "gone.xml") demo_st "/in"
           (demo_cfg false false false true (Some "/archive"))); reflexivity.
Defined.

(** An unset or empty [move_processed_to] is falsy: [post_handle] then
    makes no copy and at most removes the file. *)
Theorem post_handle_no_archive env fp cfg st :
  move_processed_to cfg = None \/ move_processed_to cfg = Some "" ->
  post_handle env fp cfg st =
    if delete_after_pick_up cfg then (env_remove env fp, record_effect st (ERemove fp))
    else (Ok tt, st).
Proof.
  intros Hm. unfold post_handle.
  assert (Ht : truthy_str (move_processed_to cfg) = false) by (destruct Hm as [-> | ->]; reflexivity).
  rewrite Ht. destruct (delete_after_pick_up cfg); reflexivity.
Qed.

Lemma post_handle_no_archive_witness :
  post_handle demo_env "/in/order.xml" (demo_cfg false false false true (Some "")) demo_st =
    (Ok tt, record_effect demo_st (ERemove "/in/order.xml")) /\
  post_handle demo_env "/in/order.xml" (demo_cfg false false false false None) demo_st = (Ok tt, demo_st).
Proof.
  split.
  - apply (post_handle_no_archive demo_env "/in/order.xml" (demo_cfg false false false true (Some "")) demo_st).
    right. reflexivity.
  - apply (post_handle_no_archive demo_env "/in/order.xml" (demo_cfg false false false false None) demo_st).
    left. reflexivity.
Defined.

(** ** Watches, the loop and [run], further *)






Lemma get_parser_trace_extends env pid st r st' :
  get_parser env pid st = (r, st') -> exists rest, trace st' = (trace st ++ rest)%list.
Proof.
  unfold get_parser.
  destruct (parser_cache st !! pid) as [p|].
  - intros H; inversion H; subst. exists []. rewrite app_nil_r. reflexivity.
  - rewrite bind_run.
    destruct (py_split ":" (py_strip pid)) as [|ty [|nm [|x rest]]]; cbn;
      try (intros H; inversion H; subst; exists []; rewrite app_nil_r; reflexivity).
    destruct (String.eqb ty "py"); cbn.
    + unfold get_py_parser; rewrite !bind_run; cbn.
      match goal with |- context [env_import ?en ?a ?b] => destruct (env_import en a b) end;
        cbn; intros H; inversion H; subst; cbn; eexists; reflexivity.
    + intros H; inversion H; subst. exists []. rewrite app_nil_r. reflexivity.
Qed.

Lemma pres_try_KI {A} Q (m : M A) h :
  preserves Q m -> preserves Q h -> preserves Q (try_except_KeyboardInterrupt m h).
Proof.
  intros Hm Hh st r st' HQ. unfold try_except_KeyboardInterrupt.
  destruct (m st) as [[a|[cls msg|]] st1] eqn:E; intros H.
  - inversion H; subst. eapply Hm; eauto.
  - inversion H; subst. eapply Hm; eauto.
  - eapply Hh; [eapply Hm; eauto | exact H].
Qed.

Lemma pres_run_loop env cbc Q :
  (forall st ef, Q st -> Q (record_effect st ef)) ->
  (forall pid, preserves Q (get_parser env pid)) ->
  (forall st b, Q st -> Q (snd (set_keep_running b st))) ->
  forall ticks, preserves Q (run_loop env cbc ticks).
Proof.
  intros He Hp Hk ticks. induction ticks as [|t ts IH]; intros st r st' HQ; cbn [run_loop];
    destruct (keep_running st); try (intros H; inversion H; subst; exact HQ).
  destruct t as [rr|].
  - refine (pres_bind Q _ _ _ (fun _ => IH) st r st' HQ).
    apply pres_try_KI.
    + apply pres_bind; [intros s ? s' Hs Hrun; inversion Hrun; subst; auto|]. intros _.
      apply pres_bind; [apply pres_lift|]. intros evs. apply pres_process_events; assumption.
    + intros s ? s' Hs Hrun. inversion Hrun; subst. apply (Hk s false Hs).
  - refine (pres_bind Q _ _ _ (fun _ => IH) st r st' HQ).
    intros s ? s' Hs Hrun. inversion Hrun; subst. apply (Hk s false Hs).
Qed.

(** Handling events never changes the watch descriptors or the
    [keep_running] flag; over the whole loop the watch descriptors stay as
    set up, the parser cache only grows and the trace only grows. *)
Theorem loop_keeps_watches env cbc st :
  (forall evs, let st' := snd (process_events env cbc evs st) in
     wd_to_path st' = wd_to_path st /\ keep_running st' = keep_running st) /\
  (forall ticks, let st' := snd (run_loop env cbc ticks st) in
     wd_to_path st' = wd_to_path st /\ parser_cache st ⊆ parser_cache st' /\
     exists rest, trace st' = (trace st ++ rest)%list).
Proof.
  split.
  - intros evs st'.
    set (Q := fun s => wd_to_path s = wd_to_path st /\ keep_running s = keep_running st).
    assert (HQ : preserves Q (process_events env cbc evs)).
    { apply pres_process_events.
      - intros s ef H. exact H.
      - intros pid s r s' [Hw Hk] Hs.
        destruct (get_parser_shape env pid s r s' Hs) as (Hw' & Hk' & _).
        split; congruence. }
    subst st'. destruct (process_events env cbc evs st) as [r s'] eqn:E.
    exact (HQ st r s' (conj eq_refl eq_refl) E).
  - intros ticks st'.
    set (Q := fun s => wd_to_path s = wd_to_path st /\ parser_cache st ⊆ parser_cache s /\
                       exists rest, trace s = (trace st ++ rest)%list).
    assert (HQ : preserves Q (run_loop env cbc ticks)).
    { apply pres_run_loop.
      - intros s ef (Hw & Hc & rest & Ht). split; [exact Hw|]. split; [exact Hc|].
        exists (rest ++ [ef])%list. rewrite record_effect_trace, Ht, app_assoc. reflexivity.
      - intros pid s r s' (Hw & Hc & rest & Ht) Hs.
        destruct (get_parser_shape env pid s r s' Hs) as (Hw' & _).
        destruct (get_parser_trace_extends env pid s r s' Hs) as [rest' Ht'].
        split; [congruence|]. split; [etransitivity; [exact Hc | eapply get_parser_cache_grows; eauto]|].
        exists (rest ++ rest')%list. rewrite Ht', Ht, app_assoc. reflexivity.
      - intros s b (Hw & Hc & Ht). exact (conj Hw (conj Hc Ht)). }
    subst st'. destruct (run_loop env cbc ticks st) as [r s'] eqn:E.
    apply (HQ st r s'); [|exact E].
    split; [reflexivity|]. split; [reflexivity|]. exists []. rewrite app_nil_r. reflexivity.
Qed.

Lemma run_loop_stopped env cbc ticks st :
  keep_running st = false -> run_loop env cbc ticks st = (Ok tt, st).
Proof. intros H. destruct ticks; cbn; rewrite H; reflexivity. Qed.



(** A [KeyboardInterrupt] raised by [infx.get_events] clears
    [keep_running]: the loop ends after that poll. *)
Theorem interrupt_in_poll_ends_loop env cbc ticks st :
  keep_running st = true ->
  run_loop env cbc (Poll (Err KeyboardInterrupt) :: ticks) st =
    (Ok tt, snd (set_keep_running false (record_effect st EPoll))).
Proof.
  intros H. cbn [run_loop]. rewrite H.
  cbv [mbind M_bind try_except_KeyboardInterrupt emit lift]. cbn [set_keep_running].
  apply run_loop_stopped. reflexivity.
Qed.

Lemma interrupt_in_poll_ends_loop_witness :
  run_loop demo_env demo_cfgs_raw (Poll (Err KeyboardInterrupt) :: [Poll (Ok [demo_ev "order.xml"])]) demo_st =
    (Ok tt, snd (set_keep_running false (record_effect demo_st EPoll))).
Proof. apply interrupt_in_poll_ends_loop. reflexivity. Defined.

Lemma process_events_app env cbc a b st :
  process_events env cbc (a ++ b) st = (process_events env cbc a;; process_events env cbc b) st.
Proof.
  revert st. induction a as [|ev a IH]; intros st; [reflexivity|].
  cbn [app process_events]. rewrite !bind_run.
  destruct (process_event env cbc ev st) as [[[]|e] s1]; [|reflexivity].
  rewrite IH, bind_run. reflexivity.
Qed.

(** A [KeyboardInterrupt] raised while an event is handled passes through
    the per-event [except Exception] guard: the rest of the batch is
    dropped, [keep_running] is cleared and the loop ends. *)
Theorem interrupt_in_event_drops_batch env cbc pre ev post ticks st s1 s2 :
  keep_running st = true ->
  process_events env cbc pre (record_effect st EPoll) = (Ok tt, s1) ->
  handle_event env cbc ev s1 = (Err KeyboardInterrupt, s2) ->
  run_loop env cbc (Poll (Ok (pre ++ ev :: post)%list) :: ticks) st =
    (Ok tt, snd (set_keep_running false s2)).
Proof.
  intros Hk Hpre Hev. cbn [run_loop]. rewrite Hk.
  cbv [mbind M_bind try_except_KeyboardInterrupt emit lift].
  fold (record_effect st EPoll).
  rewrite process_events_app, bind_run, Hpre. cbn [process_events]. rewrite bind_run.
  unfold process_event, try_except_Exception. rewrite Hev. cbn [is_exception].
  cbn [set_keep_running]. apply run_loop_stopped. reflexivity.
Qed.

Lemma interrupt_in_event_drops_batch_witness :
  let s1 := snd (process_events demo_env_ki demo_cfgs_raw [demo_ev "order.xml"] (record_effect demo_st EPoll)) in
  let s2 := snd (handle_event demo_env_ki demo_cfgs_raw (demo_ev "gone-ctrlc.xml") s1) in
  run_loop demo_env_ki demo_cfgs_raw
    [Poll (Ok ([demo_ev "order.xml"] ++ demo_ev "gone-ctrlc.xml" :: [demo_ev "order.xml"])%list);
     Poll (Ok [demo_ev "order.xml"])] demo_st =
    (Ok tt, snd (set_keep_running false s2)).
Proof.
  intros s1 s2.
  apply (interrupt_in_event_drops_batch demo_env_ki demo_cfgs_raw [demo_ev "order.xml"]
           (demo_ev "gone-ctrlc.xml") [demo_ev "order.xml"] [Poll (Ok [demo_ev "order.xml"])] demo_st s1 s2).
  - reflexivity.
  - vm_compute. reflexivity.
  - vm_compute. reflexivity.
Defined.

(** An [Exception] raised by [infx.get_events] is not caught inside the
    loop: it leaves the [while] loop and reaches the outer handler of
    [run], which logs it and returns; nothing is polled afterwards. *)
Theorem poll_error_ends_run env cbc ticks st fd e st1 :
  env_infx_available env = true -> env_infx_init env = Ok fd ->
  add_watches env (map fst (map_to_list cbc)) st = (Ok tt, st1) ->
  keep_running st1 = true -> is_exception e = true ->
  run env cbc (Poll (Err e) :: ticks) st =
    (Ok tt, record_effect (record_effect st1 EPoll) (ELogExc e)).
Proof.
  intros Hav Hinit Hw Hk He. unfold run. rewrite Hav. cbn [negb].
  cbv [mbind M_bind lift try_except_Exception]. rewrite Hinit, Hw.
  cbn [run_loop]. rewrite Hk.
  cbv [mbind M_bind try_except_KeyboardInterrupt emit lift].
  destruct e as [cls msg|]; [reflexivity | discriminate].
Qed.

Lemma poll_error_ends_run_witness :
  run demo_env demo_cfgs_raw (Poll (Err (demo_error "IOError")) :: [Poll (Ok [demo_ev "order.xml"])]) demo_st =
    (Ok tt, record_effect (record_effect (snd (add_watches demo_env ["/in"] demo_st)) EPoll)
                          (ELogExc (demo_error "IOError"))).
Proof.
  apply (poll_error_ends_run demo_env demo_cfgs_raw _ demo_st 3).
  - reflexivity.
  - reflexivity.
  - vm_compute. reflexivity.
  - reflexivity.
  - reflexivity.
Defined.

(** Start-up of [run]: without [gevent_inotifyx] it only logs a warning
    and returns; an error of [infx.init()], which is called before the
    [try:] block, is not caught and propagates out of [run]. *)
Theorem run_startup env cbc ticks st :
  (env_infx_available env = false ->
     run env cbc ticks st = (Ok tt, record_effect st (ELogMsg "inotify not available, pickup disabled"))) /\
  (forall e, env_infx_available env = true -> env_infx_init env = Err e ->
     run env cbc ticks st = (Err e, st)).
Proof.
  unfold run. split.
  - intros H. rewrite H. reflexivity.
  - intros e H Hi. rewrite H. cbv [negb mbind M_bind lift]. rewrite Hi. reflexivity.
Qed.

Lemma run_startup_witness :
  run (demo_env_infx false (Ok 3)) demo_cfgs_raw [Poll (Ok [demo_ev "order.xml"])] demo_st =
    (Ok tt, record_effect demo_st (ELogMsg "inotify not available, pickup disabled")) /\
  run (demo_env_infx true (Err (demo_error "OSError"))) demo_cfgs_raw [Poll (Ok [demo_ev "order.xml"])] demo_st =
    (Err (demo_error "OSError"), demo_st).
Proof.
  split.
  - apply (proj1 (run_startup (demo_env_infx false (Ok 3)) demo_cfgs_raw [Poll (Ok [demo_ev "order.xml"])] demo_st)).
    reflexivity.
  - apply (proj2 (run_startup (demo_env_infx true (Err (demo_error "OSError"))) demo_cfgs_raw
                    [Poll (Ok [demo_ev "order.xml"])] demo_st)); reflexivity.
Defined.

Lemma run_loop_polls env cbc batches st :
  env_exceptions_only env -> keep_running st = true ->
  run_loop env cbc (map (fun evs => Poll (Ok evs)) batches) st = (Ok tt, after_batches env cbc batches st) /\
  keep_running (after_batches env cbc batches st) = true.
Proof.
  intros Henv. revert st.
  induction batches as [|evs batches IH]; intros st Hkr; [split; [cbn; rewrite Hkr|]; auto|].
  cbn [map run_loop]. rewrite Hkr.
  cbv [try_except_KeyboardInterrupt mbind M_bind emit lift].
  rewrite (process_events_ok env cbc evs _ Henv).
  apply IH. rewrite process_events_keep_running. exact Hkr.
Qed.

(** End to end: when inotify is available and initialised, every
    configured directory is watched, and the errors that arise are
    [Exception]s, [run] handles every polled batch in turn, each event
    through the per-event guard, returns normally at the end of the
    schedule and is still running. *)
Theorem run_processes_batches env cbc batches st st1 fd :
  env_exceptions_only env -> env_infx_available env = true -> env_infx_init env = Ok fd ->
  add_watches env (map fst (map_to_list cbc)) st = (Ok tt, st1) -> keep_running st1 = true ->
  run env cbc (map (fun evs => Poll (Ok evs)) batches) st = (Ok tt, after_batches env cbc batches st1) /\
  keep_running (after_batches env cbc batches st1) = true.
Proof.
  intros Henv Hav Hinit Hw Hk.
  destruct (run_loop_polls env cbc batches st1 Henv Hk) as [Hrun Hkr].
  split; [|exact Hkr].
  unfold run. rewrite Hav. cbn [negb].
  cbv [mbind M_bind lift try_except_Exception]. rewrite Hinit, Hw.
  cbv [mbind M_bind] in Hrun. rewrite Hrun. reflexivity.
Qed.

Lemma run_processes_batches_witness :
  run demo_env demo_cfgs_raw
    (map (fun evs => Poll (Ok evs)) [[demo_ev "gone.xml"; demo_ev "order.xml"]; [demo_ev "x.txt"]]) demo_st =
    (Ok tt, after_batches demo_env demo_cfgs_raw [[demo_ev "gone.xml"; demo_ev "order.xml"]; [demo_ev "x.txt"]]
              (snd (add_watches demo_env ["/in"] demo_st))) /\
  keep_running (after_batches demo_env demo_cfgs_raw [[demo_ev "gone.xml"; demo_ev "order.xml"]; [demo_ev "x.txt"]]
                  (snd (add_watches demo_env ["/in"] demo_st))) = true.
Proof.
  apply (run_processes_batches demo_env demo_cfgs_raw _ demo_st _ 3).
  - repeat split; intros *; cbn;
      repeat match goal with |- context [if ?b then _ else _] => destruct b end;
      try discriminate; intros H; inversion H; reflexivity.
  - reflexivity.
  - reflexivity.
  - vm_compute. reflexivity.
  - reflexivity.
Defined.
